(** * exp: the command-line front-end, embedded in Rocq

    The development follows the three source files of the CLI:
    the program module (commander extensions [allowOffline],
    [allowNonInteractive], [asyncAction], [asyncActionProjectDir], the entry
    point [runAsync] and the update checker [checkForUpdateAsync]), and the
    two command modules [commands/login.js] and [commands/publish.js].

    JavaScript values are modelled by the small types the code inspects,
    asynchronous functions by a state-and-exception monad over the process
    state (what was printed, which collaborator was called, the global
    configuration flags), and the collaborators (xdl, commander, the
    accounts and sendTo modules) by an oracle record that gives the outcome
    of each call. *)

From stdpp Require Import base list strings pretty.
From Stdlib Require Import ZArith Lia Ascii Sorted.


Open Scope Z_scope.

(** ** Terminal text

    [crayon] wraps a string in a colour; the terminal sinks receive either a
    plain string or a painted one. *)

Inductive Style := red | green | grey | underline.

Inductive Text :=
| Plain (s : string)
| Paint (c : Style) (t : Text)
| Cat (t1 t2 : Text).

Fixpoint plain_of (t : Text) : string :=
  match t with
  | Plain s => s
  | Paint _ t => plain_of t
  | Cat t1 t2 => plain_of t1 +:+ plain_of t2
  end.

Fixpoint painted (t : Text) : bool :=
  match t with
  | Plain _ => false
  | Paint _ _ => true
  | Cat t1 t2 => painted t1 || painted t2
  end.

(** ** The progress bar of the [progress] package

    [new ProgressBar(fmt, {total: 100, ...})] starts at [curr = 0] with
    [complete] unset; [tick(len)] adds [len] to [curr] and sets [complete]
    once [curr] has reached [total]. *)

Module ProgressBar.

Record t := mk { curr : Z; total : Z; complete : bool }.

Definition new (total : Z) : t :=
  {| curr := 0; total := total; complete := false |}.

Definition tick (len : Z) (b : t) : t :=
  let c := curr b + len in
  {| curr := c;
     total := total b;
     complete := if total b <=? c then true else complete b |}.

End ProgressBar.

(** ** The log-multiplexing sink of [asyncActionProjectDir]

    The callbacks given to [PackagerLogsStream] close over the variable
    [bar]; [log.setBundleProgressBar] keeps a second reference to the same
    object.  Bars live in a store and both references are indices into it. *)

Module LogSink.

Record state := mk {
  bars : list ProgressBar.t;          (* the objects created so far *)
  bar : option nat;                   (* the closure variable [bar] *)
  bundleProgressBar : option nat;     (* the reference held by [log] *)
  printed : list Text                 (* lines given to [log] *)
}.

Definition init : state :=
  {| bars := []; bar := None; bundleProgressBar := None; printed := [] |}.

(** [onStartBuildBundle] *)
Definition onStartBuildBundle (s : state) : state :=
  let r := length (bars s) in
  {| bars := bars s ++ [ProgressBar.new 100];
     bar := Some r;
     bundleProgressBar := Some r;
     printed := printed s |}.

Definition tick_at (r : nat) (len : Z) (s : state) : state :=
  match bars s !! r with
  | Some b =>
      {| bars := <[r := ProgressBar.tick len b]> (bars s);
         bar := bar s;
         bundleProgressBar := bundleProgressBar s;
         printed := printed s |}
  | None => s
  end.

(** [onProgressBuildBundle] *)
Definition onProgressBuildBundle (percent : Z) (s : state) : state :=
  match bar s with
  | None => s
  | Some r =>
      match bars s !! r with
      | None => s
      | Some b =>
          if ProgressBar.complete b then s
          else
            let ticks := percent - ProgressBar.curr b in
            if 0 <? ticks then tick_at r ticks s else s
      end
  end.

(** [onFinishBuildBundle]: [err] is the truthiness of the first argument,
    the two dates are in milliseconds. *)
Definition onFinishBuildBundle (err : bool) (startTime endTime : Z)
    (s : state) : state :=
  let s1 :=
    match bar s with
    | Some r =>
        match bars s !! r with
        | Some b =>
            if ProgressBar.complete b then s
            else tick_at r (100 - ProgressBar.curr b) s
        | None => s
        end
    | None => s
    end in
  match bar s1 with
  | Some _ =>
      {| bars := bars s1;
         bar := None;
         bundleProgressBar := None;
         printed :=
           printed s1 ++
           [if err then Paint red (Plain "Failed building JavaScript bundle.")
            else Paint green
                   (Plain ("Finished building JavaScript bundle in "
                           +:+ pretty (endTime - startTime) +:+ "ms."))] |}
  | None => s1
  end.

(** The position of the bar the closure currently refers to. *)
Definition position (s : state) : Z :=
  match bar s with
  | Some r =>
      match bars s !! r with
      | Some b => ProgressBar.curr b
      | None => 0
      end
  | None => 0
  end.

(** A run of progress notifications, and what each of them added to the
    position. *)
Fixpoint progress (ps : list Z) (s : state) : state :=
  match ps with
  | [] => s
  | p :: ps => progress ps (onProgressBuildBundle p s)
  end.

Fixpoint advances (ps : list Z) (s : state) : list Z :=
  match ps with
  | [] => []
  | p :: ps =>
      let s' := onProgressBuildBundle p s in
      (position s' - position s) :: advances ps s'
  end.

Definition sumZ (l : list Z) : Z := fold_right Z.add 0 l.

(** The position of a bar that has just been created. *)
Definition p0 : Z := ProgressBar.curr (ProgressBar.new 100).

(** The closure variable refers to bar [r] of total 100, standing at [c],
    which is flagged complete only once it has reached its total. *)
Definition tracks (r : nat) (c : Z) (s : state) : Prop :=
  exists b,
    bar s = Some r /\ bars s !! r = Some b /\
    ProgressBar.total b = 100 /\ ProgressBar.curr b = c /\
    (ProgressBar.complete b = true <-> 100 <= c).

End LogSink.

(** ** JavaScript values handed to actions and thrown by them *)

(** The error objects the wrapper inspects: the message, the stack, and the
    three marker fields (absent markers are [false]).  Every failure of the
    embedding carries such an object: a promise rejected with [undefined] or
    [null], on which the reads of the [catch] block would themselves throw,
    has no counterpart here. *)
Record Error := mkError {
  message : string;
  stack : string;
  _isCommandError : bool;
  _isApiError : bool;
  isXDLError : bool
}.

(** [new Error(msg)] and the [TypeError] of a property read on [undefined]:
    neither carries a marker. *)
Definition plain_error (msg : string) : Error :=
  {| message := msg; stack := "Error: " +:+ msg;
     _isCommandError := false; _isApiError := false; isXDLError := false |}.

Definition type_error (msg : string) : Error :=
  {| message := msg; stack := "TypeError: " +:+ msg;
     _isCommandError := false; _isApiError := false; isXDLError := false |}.

(** The option properties commander sets on the command object it passes as
    the last argument of an action. *)
Record Options := mkOptions {
  output : option string;
  offline : bool;
  nonInteractive : bool;
  quiet : bool;
  sendTo : option string
}.

Inductive Value :=
| VUndefined
| VString (s : string)
| VCommand (o : Options)
| VPublished (url : string).     (* the object [publishAsync] resolves to *)

(** Truthiness of a value used as a condition. *)
Definition truthy (v : Value) : bool :=
  match v with
  | VUndefined => false
  | VString s => negb (String.eqb s "")
  | VCommand _ | VPublished _ => true
  end.

(** Severity outcomes of [Doctor.validateLowLatencyAsync]. *)
Inductive DoctorStatus := NO_ISSUES | WARNING | ERROR | FATAL.

Definition is_FATAL (d : DoctorStatus) : bool :=
  match d with FATAL => true | _ => false end.

(** What [update.checkForExpUpdateAsync] resolves to. *)
Record UpdateInfo := mkUpdateInfo {
  state : string;
  current : string;
  latest : string
}.

(** ** Observable events of a run *)

Inductive Event :=
(* terminal sinks *)
| Log (t : Text)                       (* log(...) *)
| LogWarn (t : Text)                   (* log.warn(...) *)
| LogError (t : Text)                  (* log.error(...) *)
| LogRaw (s : string)                  (* log.raw(...) *)
| CrayonGreenError (s : string)        (* crayon.green.error(...) *)
| CrayonGrayError (s : string)         (* crayon.gray.error(...) *)
| ConsoleLog (s : string)              (* console.log(...) *)
| SpinnerStart
| SpinnerStop
(* collaborators *)
| CheckForExpUpdate                    (* update.checkForExpUpdateAsync() *)
| LoginOrRegisterIfLoggedOut
| EnsureLoggedIn                       (* UserManager.ensureLoggedInAsync() *)
| ProcessCwd                           (* process.cwd() *)
| NewPackagerLogsStream (projectRoot : string)
| AttachLoggerStream (projectRoot : string)
| CurrentStatus (projectDir : string)  (* Project.currentStatus *)
| ValidateLowLatency (projectDir : string)
| AnalyticsFlush
| InstallExitHooks (projectDir : string)
| StartAsync (projectDir : string) (verbose : bool)
| GetRecipient (dest : option string)
| PublishAsync (projectDir : string)
| SendUrlAsync (url recipient : string)
| StopAsync (projectDir : string)
| Dispatch (name : string) (argv : list string)  (* commander enters a handler *)
| ProgramHelp                          (* program.help() *)
| ConsoleError (e : Error)             (* console.error(e) *)
| ProcessExit (code : Z).

(** ** Collaborators

    Outcome of each call into code outside this layer: it resolves to a value
    or rejects with an error.  The oracle fixes the outcome of every call of
    one run; a call is recorded in the trace when it is made. *)

Inductive Result (A : Type) :=
| Resolve (a : A)
| Reject (e : Error).
Arguments Resolve {A} a.
Arguments Reject {A} e.

Record World := mkWorld {
  EXPO_DEBUG : bool;                               (* process.env.EXPO_DEBUG *)
  cwd : string;                                    (* process.cwd() *)
  path_resolve : string -> string -> string;       (* path.resolve *)
  checkForExpUpdateAsync : Result UpdateInfo;
  loginOrRegisterIfLoggedOut : Result unit;
  ensureLoggedInAsync : Result unit;
  currentStatus : string -> Result string;
  validateLowLatencyAsync : string -> Result DoctorStatus;
  flush : Result unit;                             (* Analytics.flush() *)
  startAsync : string -> Result unit;
  getRecipient : option string -> Result (option string);
  publishAsync : string -> Result string;          (* the url of the result *)
  sendUrlAsync : string -> string -> Result unit;
  stopAsync : string -> Result unit
}.

(** ** The process monad

    A computation reads and extends the process state and either returns,
    throws, or ends the process ([process.exit]). *)

Record Proc := mkProc {
  trace : list Event;          (* everything observable so far, oldest first *)
  log_config_raw : bool;       (* log.config.raw *)
  Config_offline : bool        (* Config.offline *)
}.

Definition boot : Proc :=
  {| trace := []; log_config_raw := false; Config_offline := false |}.

Inductive Outcome (A : Type) :=
| Returned (a : A)
| Thrown (e : Error)
| Exited (code : Z).
Arguments Returned {A} a.
Arguments Thrown {A} e.
Arguments Exited {A} code.

Definition M (A : Type) : Type := Proc -> Outcome A * Proc.

(** The process state after further events. *)
Definition extend (p : Proc) (evs : list Event) : Proc :=
  {| trace := trace p ++ evs;
     log_config_raw := log_config_raw p;
     Config_offline := Config_offline p |}.

(** [needle] occurs in [hay]. *)
Definition contains (needle hay : string) : Prop :=
  exists pre post, hay = pre +:+ needle +:+ post.

Definition ret {A} (a : A) : M A := fun p => (Returned a, p).

Definition bind {A B} (m : M A) (k : A -> M B) : M B :=
  fun p =>
    match m p with
    | (Returned a, p') => k a p'
    | (Thrown e, p') => (Thrown e, p')
    | (Exited c, p') => (Exited c, p')
    end.

Definition throw {A} (e : Error) : M A := fun p => (Thrown e, p).

(** [try { m } catch (e) { h e }]: [process.exit] is not an exception. *)
Definition try_catch {A} (m : M A) (h : Error -> M A) : M A :=
  fun p =>
    match m p with
    | (Thrown e, p') => h e p'
    | r => r
    end.

Definition emit (e : Event) : M unit :=
  fun p => (Returned tt, extend p [e]).

Definition set_log_config_raw (b : bool) : M unit :=
  fun p =>
    (Returned tt,
     {| trace := trace p; log_config_raw := b;
        Config_offline := Config_offline p |}).

Definition set_Config_offline (b : bool) : M unit :=
  fun p =>
    (Returned tt,
     {| trace := trace p; log_config_raw := log_config_raw p;
        Config_offline := b |}).

(** [await c(...)]: the call is observed, then its outcome is delivered. *)
Definition await {A} (e : Event) (r : Result A) : M A :=
  fun p =>
    match emit e p with
    | (_, p') =>
        match r with
        | Resolve a => (Returned a, p')
        | Reject err => (Thrown err, p')
        end
    end.

(** [process.exit(code)] *)
Definition process_exit {A} (code : Z) : M A :=
  fun p =>
    match emit (ProcessExit code) p with
    | (_, p') => (Exited code, p')
    end.

Declare Scope proc_scope.
Delimit Scope proc_scope with proc.
Notation "x <- m ;; k" := (bind m (fun x => k))
  (at level 100, m at next level, right associativity) : proc_scope.
Notation "m ;; k" := (bind m (fun _ => k))
  (at level 100, right associativity) : proc_scope.
Open Scope proc_scope.

Definition when (b : bool) (m : M unit) : M unit :=
  if b then m else ret tt.

(** ** The wrappers installed on [Command.prototype] *)

Definition nl : string := String (Ascii.ascii_of_nat 10) "".

(** Reading an option property [v.name]: a [TypeError] on [undefined],
    [undefined] (the given default) on a value that has no such property. *)
Definition get_prop {A} (v : Value) (name : string) (proj : Options -> A)
    (undef : A) : M A :=
  match v with
  | VUndefined =>
      throw (type_error ("Cannot read property '" +:+ name +:+ "' of undefined"))
  | VCommand o => ret (proj o)
  | VString _ | VPublished _ => ret undef
  end.


Definition is_raw (o : option string) : bool :=
  match o with
  | Some s => String.eqb s "raw"
  | None => false
  end.

Definition update_message (current latest : string) : string :=
  "There is a new version of exp available (" +:+ latest +:+ ")." +:+ nl +:+
  "You are currently using exp " +:+ current +:+ nl +:+
  "Run `npm install -g exp` to get the latest version".

(** The [switch (state)] of [checkForUpdateAsync]. *)
Definition switch_state (info : UpdateInfo) : M unit :=
  if String.eqb (state info) "up-to-date" then ret tt
  else if String.eqb (state info) "out-of-date" then
    emit (CrayonGreenError (update_message (current info) (latest info)))
  else if String.eqb (state info) "ahead-of-published" then ret tt
  else emit (LogError (Plain "Confused about what version of exp you have?")).

(** The error carries one of the three markers. *)
Definition tagged (err : Error) : bool :=
  _isCommandError err || _isApiError err || isXDLError err.

(** The [catch (err)] block of [asyncAction]. *)
Definition report (debug : bool) (err : Error) : M unit :=
  if _isCommandError err then emit (LogError (Plain (message err)))
  else if _isApiError err then emit (LogError (Paint red (Plain (message err))))
  else if isXDLError err then emit (LogError (Plain (message err)))
  else
    emit (LogError (Plain (message err))) ;;
    if debug then emit (CrayonGrayError (stack err))
    else
      emit (LogError
              (Paint grey
                 (Plain "Set EXPO_DEBUG=true in your env to view the stack trace."))).

Section Wrappers.

Variable w : World.

Definition checkForUpdateAsync : M unit :=
  info <- await CheckForExpUpdate (checkForExpUpdateAsync w) ;;
  switch_state info.

(** [try { await checkForUpdateAsync(); } catch (e) {}] *)
Definition update_check_best_effort : M unit :=
  try_catch checkForUpdateAsync (fun _ => ret tt).

(** The [try] block of [asyncAction]: first the two option checks, then
    the handler and the telemetry flush. *)
Definition read_options (args : list Value) : M unit :=
  let options := List.last args VUndefined in
  out <- get_prop options "output" output None ;;
  when (is_raw out) (set_log_config_raw true) ;;
  off <- get_prop options "offline" offline false ;;
  when off (set_Config_offline true).

Definition asyncAction_try (asyncFn : list Value -> M Value)
    (args : list Value) : M unit :=
  read_options args ;;
  _ <- asyncFn args ;;
  await AnalyticsFlush (flush w).

(** The function [asyncAction] gives to [this.action]. *)
Definition asyncAction (asyncFn : list Value -> M Value)
    (skipUpdateCheck : bool) (args : list Value) : M unit :=
  when (negb skipUpdateCheck) update_check_best_effort ;;
  try_catch (asyncAction_try asyncFn args)
    (fun err => report (EXPO_DEBUG w) err ;; process_exit 1).

(** [!skipAuthCheck && !opts.nonInteractive && !opts.offline], with the
    short-circuit evaluation of [&&]. *)
Definition wants_login (skipAuthCheck : bool) (opts : Value) : M bool :=
  if skipAuthCheck then ret false
  else
    ni <- get_prop opts "nonInteractive" nonInteractive false ;;
    if ni then ret false
    else
      off <- get_prop opts "offline" offline false ;;
      ret (negb off).

(** [projectDir = !projectDir ? process.cwd()
                              : path.resolve(process.cwd(), projectDir)] *)
Definition resolve_projectDir (projectDir : Value) : M string :=
  _ <- emit ProcessCwd ;;
  if truthy projectDir then
    match projectDir with
    | VString s => ret (path_resolve w (cwd w) s)
    | _ => throw (type_error "Path must be a string")
    end
  else ret (cwd w).

(** The project validation step. *)
Definition validate_project (skipProjectValidation : bool)
    (projectDir : string) : M unit :=
  if skipProjectValidation then ret tt
  else
    status <- await (CurrentStatus projectDir) (currentStatus w projectDir) ;;
    if String.eqb status "running" then ret tt
    else
      emit (Log (Plain "Making sure project is set up correctly...")) ;;
      emit SpinnerStart ;;
      status <- await (ValidateLowLatency projectDir)
                  (validateLowLatencyAsync w projectDir) ;;
      if is_FATAL status then
        throw (plain_error
          "There is an error with your project. See above logs for information.")
      else
        emit SpinnerStop ;;
        emit (Log (Plain "Your project looks good!")).

(** The function [asyncActionProjectDir] gives to [this.asyncAction],
    [async (projectDir, ...args) => { ... }]: everything up to the last
    statement, which yields the resolved directory, and then
    [return asyncFn(projectDir, ...args)]. *)
Definition authenticate (skipAuthCheck : bool) (opts : Value) : M unit :=
  login <- wants_login skipAuthCheck opts ;;
  when login
    (await LoginOrRegisterIfLoggedOut (loginOrRegisterIfLoggedOut w)) ;;
  when (negb skipAuthCheck) (await EnsureLoggedIn (ensureLoggedInAsync w)).

(** [new PackagerLogsStream({projectRoot: projectDir, ...})] and
    [ProjectUtils.attachLoggerStream(projectDir, ...)]; what the callbacks
    do when they are called is [LogSink]'s. *)
Definition attach_logs (projectDir : string) : M unit :=
  emit (NewPackagerLogsStream projectDir) ;;
  emit (AttachLoggerStream projectDir).

Definition before_delegation (skipProjectValidation skipAuthCheck : bool)
    (all : list Value) : M string :=
  let projectDir := hd VUndefined all in
  let args := tl all in
  update_check_best_effort ;;
  let opts := hd VUndefined args in
  authenticate skipAuthCheck opts ;;
  projectDir <- resolve_projectDir projectDir ;;
  attach_logs projectDir ;;
  validate_project skipProjectValidation projectDir ;;
  ret projectDir.

Definition asyncActionProjectDir_fn
    (asyncFn : string -> list Value -> M Value)
    (skipProjectValidation skipAuthCheck : bool)
    (all : list Value) : M Value :=
  projectDir <- before_delegation skipProjectValidation skipAuthCheck all ;;
  asyncFn projectDir (tl all).

Definition asyncActionProjectDir
    (asyncFn : string -> list Value -> M Value)
    (skipProjectValidation skipAuthCheck : bool) : list Value -> M unit :=
  asyncAction
    (asyncActionProjectDir_fn asyncFn skipProjectValidation skipAuthCheck)
    true.

(** *** [commands/publish.js] *)

Definition no_options : Options :=
  {| output := None; offline := false; nonInteractive := false;
     quiet := false; sendTo := None |}.

(** [options: Options = {}] read from the argument after the directory. *)
Definition options_of (v : Value) : Options :=
  match v with
  | VCommand o => o
  | _ => no_options
  end.

Definition action (projectDir : string) (options : Options) : M Value :=
  status <- await (CurrentStatus projectDir) (currentStatus w projectDir) ;;
  startedOurOwn <-
    (if String.eqb status "running" then ret false
     else
       emit (Log (Plain
         "Unable to find an existing exp instance for this directory, starting a new one...")) ;;
       emit (InstallExitHooks projectDir) ;;
       await (StartAsync projectDir (negb (quiet options)))
         (startAsync w projectDir) ;;
       ret true) ;;
  recipient <- await (GetRecipient (sendTo options))
                 (getRecipient w (sendTo options)) ;;
  emit (Log (Plain "Publishing...")) ;;
  when (quiet options) (emit SpinnerStart) ;;
  url <- await (PublishAsync projectDir) (publishAsync w projectDir) ;;
  when (quiet options) (emit SpinnerStop) ;;
  emit (Log (Plain "Published")) ;;
  emit (Log (Cat (Plain ("Your URL is" +:+ nl +:+ nl))
               (Cat (Paint underline (Plain url)) (Plain nl)))) ;;
  emit (LogRaw url) ;;
  match recipient with
  | Some r =>
      when (negb (String.eqb r "")) (await (SendUrlAsync url r) (sendUrlAsync w url r))
  | None => ret tt
  end ;;
  when startedOurOwn (await (StopAsync projectDir) (stopAsync w projectDir)) ;;
  ret (VPublished url).

(** The handler as [asyncActionProjectDir] calls it. *)
Definition publish_action (projectDir : string) (args : list Value) : M Value :=
  action projectDir (options_of (hd VUndefined args)).

End Wrappers.

(** ** The commander instance

    Only what the CLI reads back or relies on is kept: the name, alias,
    description, declared options and action of each command. *)

Record CmdOption := mkCmdOption {
  flags : string;
  description : string
}.

Record Command := mkCommand {
  _name : string;
  _alias : option string;
  _description : string;
  options : list CmdOption;
  _action : option (list Value -> M unit)
}.

Record Program := mkProgram {
  program_options : list CmdOption;
  commands : list Command
}.

(** [s.split(/[sep]+/)]: the pieces between runs of separators, the empty
    piece before a leading run and after a trailing one included. *)
Fixpoint split_runs (sep : Ascii.ascii -> bool) (s : string) (cur : string)
    (in_run : bool) : list string :=
  match s with
  | EmptyString => [cur]
  | String c s' =>
      if sep c then
        if in_run then split_runs sep s' cur true
        else cur :: split_runs sep s' "" true
      else split_runs sep s' (cur +:+ String c "") false
  end.

Definition is_space (c : Ascii.ascii) : bool := Ascii.eqb c " "%char.

Definition is_flag_sep (c : Ascii.ascii) : bool :=
  Ascii.eqb c " "%char || Ascii.eqb c ","%char || Ascii.eqb c "|"%char.

Definition starts_with_bracket (s : string) : bool :=
  match s with
  | String c _ => Ascii.eqb c "["%char || Ascii.eqb c "<"%char
  | EmptyString => false
  end.

(** commander's [Option]: [flags.split(/[ ,|]+/)], an optional short name
    first, then the long name. *)
Definition option_names (o : CmdOption) : list string :=
  match split_runs is_flag_sep (flags o) "" false with
  | short :: long :: _ =>
      if starts_with_bracket long then [short] else [short; long]
  | names => take 1 names
  end.

(** [Option.prototype.is] *)
Definition option_is (arg : string) (o : CmdOption) : bool :=
  existsb (String.eqb arg) (option_names o).

(** A command accepts a flag when one of its declared options answers to
    it (commander rejects an option a command has not declared). *)
Definition accepts (c : Command) (flag : string) : bool :=
  existsb (option_is flag) (options c).

(** [program.command('name [args]')]: the name is the text before the first
    run of spaces. *)
Definition program_command (nameAndArgs : string) : Command :=
  {| _name := hd "" (split_runs is_space nameAndArgs "" false);
     _alias := None;
     _description := "";
     options := [];
     _action := None |}.

Definition Command_alias (a : string) (c : Command) : Command :=
  {| _name := _name c; _alias := Some a; _description := _description c;
     options := options c; _action := _action c |}.

Definition Command_description (d : string) (c : Command) : Command :=
  {| _name := _name c; _alias := _alias c; _description := d;
     options := options c; _action := _action c |}.

Definition Command_option (fl desc : string) (c : Command) : Command :=
  {| _name := _name c; _alias := _alias c; _description := _description c;
     options := options c ++ [{| flags := fl; description := desc |}];
     _action := _action c |}.

Definition Command_action (fn : list Value -> M unit) (c : Command) : Command :=
  {| _name := _name c; _alias := _alias c; _description := _description c;
     options := options c; _action := Some fn |}.

(** [Command.prototype.allowOffline] *)
Definition allowOffline (c : Command) : Command :=
  Command_option "--offline" "Allows this command to run while offline" c.

(** [Command.prototype.allowNonInteractive] *)
Definition allowNonInteractive (c : Command) : Command :=
  Command_option "--non-interactive"
    "Fails if an interactive prompt would be required to continue." c.

(** [Command.prototype.asyncAction] and [Command.prototype.asyncActionProjectDir] *)
Definition Command_asyncAction (w : World) (asyncFn : list Value -> M Value)
    (skipUpdateCheck : bool) (c : Command) : Command :=
  Command_action (asyncAction w asyncFn skipUpdateCheck) c.

Definition Command_asyncActionProjectDir (w : World)
    (asyncFn : string -> list Value -> M Value)
    (skipProjectValidation skipAuthCheck : bool) (c : Command) : Command :=
  Command_action
    (asyncActionProjectDir w asyncFn skipProjectValidation skipAuthCheck) c.

(** The command a chain of builder calls has produced joins
    [program.commands]. *)
Definition add_command (c : Command) (program : Program) : Program :=
  {| program_options := program_options program;
     commands := commands program ++ [c] |}.

Notation "x |> f" := (f x) (at level 45, left associativity, only parsing).

(** *** The two command modules *)

(** [commands/login.js]; [login] is the handler imported from [../accounts]. *)
Definition login_command (w : World) (login : list Value -> M Value) : Command :=
  program_command "login"
  |> Command_alias "signin"
  |> Command_description "Login to Expo"
  |> Command_option "-u, --username [string]" "Username"
  |> Command_option "-p, --password [string]" "Password"
  |> Command_option "-t, --token [string]" "Token"
  |> Command_option "--github" "Login with Github"
  |> allowNonInteractive
  |> Command_asyncAction w login false.

Definition login_default (w : World) (login : list Value -> M Value)
    (program : Program) : Program :=
  add_command (login_command w login) program.

(** [commands/publish.js] *)
Definition publish_command (w : World) : Command :=
  program_command "publish [project-dir]"
  |> Command_alias "p"
  |> Command_description "Publishes your project to exp.host"
  |> Command_option "-q, --quiet"
       "Suppress verbose output from the React Native packager."
  |> Command_option "-s, --send-to [dest]"
       "A phone number or e-mail address to send a link to"
  |> allowNonInteractive
  |> Command_asyncActionProjectDir w (publish_action w) true false.

Definition publish_default (w : World) (program : Program) : Program :=
  add_command (publish_command w) program.

(** ** The entry point [runAsync] *)

(** What [require] gives for a file of the commands directory: a function, a
    value that is not a function and whose [default] slot holds a function or
    does not ([{}], [{default: 1}], a string...), or [null]/[undefined]. *)
Inductive Exports :=
| ExpFunction (register : Program -> Program)
| ExpObject (default : option (Program -> Program))
| ExpNullish.

(** One turn of the [forEach] over [glob.sync('commands/*.js')]. *)
Definition register_module (file : string) (commandModule : Exports)
    (program : Program) : M Program :=
  match commandModule with
  | ExpFunction register => ret (register program)
  | ExpObject (Some register) => ret (register program)
  | ExpObject None =>
      emit (LogError
              (Plain ("'" +:+ file +:+ ".js' is not a properly formatted command."))) ;;
      ret program
  | ExpNullish => throw (type_error "Cannot read property 'default' of null")
  end.

Fixpoint register_commands (files : list (string * Exports))
    (program : Program) : M Program :=
  match files with
  | [] => ret program
  | (file, commandModule) :: files =>
      program <- register_module file commandModule program ;;
      register_commands files program
  end.

(** One turn of the [forEach] over [glob.sync('debug_commands/*.js')]:
    [require(file)(program)]. *)
Definition register_debug_module (commandModule : Exports)
    (program : Program) : M Program :=
  match commandModule with
  | ExpFunction register => ret (register program)
  | _ => throw (type_error "require(...) is not a function")
  end.

Fixpoint register_debug_commands (files : list (string * Exports))
    (program : Program) : M Program :=
  match files with
  | [] => ret program
  | (_, commandModule) :: files =>
      program <- register_debug_module commandModule program ;;
      register_debug_commands files program
  end.

(** [program.version(...).option('-o, --output [format]', ...)] *)
Definition program0 : Program :=
  {| program_options :=
       [ {| flags := "-V, --version"; description := "output the version number" |};
         {| flags := "-o, --output [format]";
            description := "Output format. pretty (default), raw" |} ];
     commands := [] |}.

(** The names a command is reached by. *)
Definition listens (sub : string) (c : Command) : bool :=
  String.eqb (_name c) sub ||
  match _alias c with
  | Some a => String.eqb a sub
  | None => false
  end.

(** Modelled from the spec: [program.parse] is commander's; the dispatch it
    performs is taken from the description of the entry point (parse [argv],
    route to the matched command): the sub-command [argv[2]] selects the
    command that carries it as name or alias, and the action that command
    registered is entered with the rest of the command line.  This is the
    parse of a command line whose first argument is the sub-command itself:
    the global options commander consumes before the sub-command
    ([-o], [--output]) and the options on which it ends the process inside
    the parse (help, version, an unknown option) are not covered. *)
Definition program_parse (program : Program) (argv : list string) : M unit :=
  match argv !! 2%nat with
  | Some sub =>
      match find (listens sub) (commands program) with
      | Some c =>
          match _action c with
          | Some _ => emit (Dispatch (_name c) (drop 3 argv))
          | None => ret tt
          end
      | None => ret tt
      end
  | None => ret tt
  end.

(** [program.help()] prints the help text and ends the process with
    [process.exit()], exit code 0. *)
Definition program_help : M unit :=
  emit ProgramHelp ;;
  process_exit 0.

Definition dq : string := String (Ascii.ascii_of_nat 34) "".

Definition not_a_command (subCommand : string) : string :=
  dq +:+ subCommand +:+ dq +:+ " is not an exp command. See " +:+ dq +:+
  "exp --help" +:+ dq +:+ " for the full list of commands.".

(** The array [commands] the entry point collects: each name, followed by
    the alias when there is one. *)
Definition names_and_aliases (program : Program) : list string :=
  flat_map
    (fun command =>
       _name command ::
       match _alias command with
       | Some a => if String.eqb a "" then [] else [a]
       | None => []
       end)
    (commands program).

(** [process.argv[2]] as a condition: absent and empty are both falsy. *)
Definition given (subCommand : option string) : bool :=
  match subCommand with
  | Some s => negb (String.eqb s "")
  | None => false
  end.

(** From [program.parse(process.argv)] to the end of the [try] block. *)
Definition dispatch (program : Program) (argv : list string) : M unit :=
  program_parse program argv ;;
  let subCommand := argv !! 2%nat in
  if given subCommand then
    let sub := default "" subCommand in
    if negb (existsb (String.eqb sub) (names_and_aliases program)) then
      emit (ConsoleLog (not_a_command sub))
    else ret tt
  else program_help.

(** The statements that follow [program.parse(process.argv)], from
    [let subCommand = process.argv[2]] to the end of the [try] block, on
    their own: they read [process.argv] and [program.commands], never what
    the parse has done. *)
Definition after_parse (program : Program) (argv : list string) : M unit :=
  let subCommand := argv !! 2%nat in
  if given subCommand then
    let sub := default "" subCommand in
    if negb (existsb (String.eqb sub) (names_and_aliases program)) then
      emit (ConsoleLog (not_a_command sub))
    else ret tt
  else program_help.

(** [runAsync]; the analytics, logging and server-url set-up that precede
    the registration touch neither the registry nor the dispatch and are
    left out. *)
Definition runAsync (w : World) (commandFiles debugFiles : list (string * Exports))
    (argv : list string) : M unit :=
  try_catch
    (program <- register_commands commandFiles program0 ;;
     program <- (if EXPO_DEBUG w then register_debug_commands debugFiles program
                 else ret program) ;;
     dispatch program argv)
    (fun e => emit (ConsoleError e) ;; throw e).

(** What the exported [run] does with a failure of [runAsync]:
    [.catch(e => { console.error('Uncaught Error', e); process.exit(1); })].
    [writePathAsync], which it starts beside [runAsync], registers no
    command and prints nothing, and is left out. *)
Definition run (w : World) (commandFiles debugFiles : list (string * Exports))
    (argv : list string) : M unit :=
  try_catch (runAsync w commandFiles debugFiles argv)
    (fun e => emit (ConsoleError e) ;; process_exit 1).

(** ** The steps of the project-directory wrapper

    The step an event of [before_delegation] belongs to.  [source_rank]
    numbers the steps in the order of the source: update check, login or
    register, session assertion, directory resolution, log streams, project
    validation.  [listed_rank] numbers them as section 4.3 lists them, the
    directory resolution first. *)

Definition source_rank (e : Event) : nat :=
  match e with
  | CheckForExpUpdate | CrayonGreenError _ | LogError _ => 0
  | LoginOrRegisterIfLoggedOut => 1
  | EnsureLoggedIn => 2
  | ProcessCwd => 3
  | NewPackagerLogsStream _ | AttachLoggerStream _ => 4
  | CurrentStatus _ | Log _ | SpinnerStart | ValidateLowLatency _
  | SpinnerStop => 5
  | _ => 6
  end.

Definition listed_rank (e : Event) : nat :=
  match e with
  | CheckForExpUpdate | CrayonGreenError _ | LogError _ => 0
  | ProcessCwd => 1
  | LoginOrRegisterIfLoggedOut => 2
  | EnsureLoggedIn => 3
  | NewPackagerLogsStream _ | AttachLoggerStream _ => 4
  | CurrentStatus _ | Log _ | SpinnerStart | ValidateLowLatency _
  | SpinnerStop => 5
  | _ => 6
  end.

(** The events of [m] from [p] on are in the order of the steps, and all
    belong to steps [lo] to [hi]. *)
Definition ranked {A} (lo hi : nat) (m : M A) : Prop :=
  forall p, exists evs,
    snd (m p) = extend p evs /\
    StronglySorted le (map source_rank evs) /\
    Forall (fun e => (lo <= source_rank e <= hi)%nat) evs.

(** The calls that touch the project's dev server. *)
Definition server_call (e : Event) : bool :=
  match e with
  | StartAsync _ _ | PublishAsync _ | StopAsync _ => true
  | _ => false
  end.

(** ** Sample collaborators and handlers, for concrete runs *)

Definition calm : World :=
  {| EXPO_DEBUG := false;
     cwd := "/home/u";
     path_resolve := fun from to => from +:+ "/" +:+ to;
     checkForExpUpdateAsync :=
       Resolve {| state := "up-to-date"; current := "50.0.0"; latest := "50.0.0" |};
     loginOrRegisterIfLoggedOut := Resolve tt;
     ensureLoggedInAsync := Resolve tt;
     currentStatus := fun _ => Resolve "running";
     validateLowLatencyAsync := fun _ => Resolve NO_ISSUES;
     flush := Resolve tt;
     startAsync := fun _ => Resolve tt;
     getRecipient := fun _ => Resolve None;
     publishAsync := fun _ => Resolve "https://exp.host/@u/app";
     sendUrlAsync := fun _ _ => Resolve tt;
     stopAsync := fun _ => Resolve tt |}.

Definition with_update (r : Result UpdateInfo) (w : World) : World :=
  {| EXPO_DEBUG := EXPO_DEBUG w; cwd := cwd w; path_resolve := path_resolve w;
     checkForExpUpdateAsync := r;
     loginOrRegisterIfLoggedOut := loginOrRegisterIfLoggedOut w;
     ensureLoggedInAsync := ensureLoggedInAsync w;
     currentStatus := currentStatus w;
     validateLowLatencyAsync := validateLowLatencyAsync w;
     flush := flush w; startAsync := startAsync w;
     getRecipient := getRecipient w; publishAsync := publishAsync w;
     sendUrlAsync := sendUrlAsync w; stopAsync := stopAsync w |}.




Definition with_status (r : string -> Result string) (w : World) : World :=
  {| EXPO_DEBUG := EXPO_DEBUG w; cwd := cwd w; path_resolve := path_resolve w;
     checkForExpUpdateAsync := checkForExpUpdateAsync w;
     loginOrRegisterIfLoggedOut := loginOrRegisterIfLoggedOut w;
     ensureLoggedInAsync := ensureLoggedInAsync w;
     currentStatus := r;
     validateLowLatencyAsync := validateLowLatencyAsync w;
     flush := flush w; startAsync := startAsync w;
     getRecipient := getRecipient w; publishAsync := publishAsync w;
     sendUrlAsync := sendUrlAsync w; stopAsync := stopAsync w |}.


Definition api_error (msg : string) : Error :=
  {| message := msg; stack := "ApiError: " +:+ msg;
     _isCommandError := false; _isApiError := true; isXDLError := false |}.

Definition succeeding : list Value -> M Value := fun _ => ret VUndefined.

Definition failing (e : Error) : list Value -> M Value := fun _ => throw e.

(** The two command modules of the commands directory, as [require] gives
    them: objects with the registration function in the [default] slot. *)
Definition command_files (w : World) (login : list Value -> M Value)
    : list (string * Exports) :=
  [ ("commands/login.js", ExpObject (Some (login_default w login)));
    ("commands/publish.js", ExpObject (Some (publish_default w))) ].

(** What the registration loop does to the registry and prints, module by
    module, when no module is [null] or [undefined]. *)
Definition registered_by (commandModule : Exports) (program : Program) : Program :=
  match commandModule with
  | ExpFunction register | ExpObject (Some register) => register program
  | _ => program
  end.

Definition malformed (commandModule : Exports) : bool :=
  match commandModule with
  | ExpObject None => true
  | _ => false
  end.

Definition nullish (commandModule : Exports) : bool :=
  match commandModule with
  | ExpNullish => true
  | _ => false
  end.

(** ** Log records and their routing

    The records xdl hands to the streams the CLI attaches: a message, a
    bunyan level, and optionally a tag and a notification code. *)

Module LogRouting.

(** bunyan's level constants. *)
Definition INFO : Z := 30.
Definition WARN : Z := 40.
Definition ERROR : Z := 50.

Record Chunk := mkChunk {
  msg : option string;
  level : Z;
  tag : option string;
  code : option Z
}.

(** [msg.split('\n')]: the pieces between newlines, empty pieces kept. *)
Fixpoint split_at (sep : Ascii.ascii) (s : string) (cur : string) : list string :=
  match s with
  | EmptyString => [cur]
  | String c s' =>
      if Ascii.eqb c sep then cur :: split_at sep s' ""
      else split_at sep s' (cur +:+ String c "")
  end.

Definition newline : Ascii.ascii := Ascii.ascii_of_nat 10.

Definition split_lines (msg : string) : list string := split_at newline msg "".

(** The text a list of lines shows on the terminal: one line after the
    other. *)
Fixpoint join_lines (lines : list string) : string :=
  match lines with
  | [] => ""
  | [line] => line
  | line :: rest => line +:+ String newline (join_lines rest)
  end.

Fixpoint for_each {A} (f : A -> M unit) (l : list A) : M unit :=
  match l with
  | [] => ret tt
  | a :: l => f a ;; for_each f l
  end.

(** [logLines]: [for (let line of msg.split('\n')) logFn(line)]. *)
Definition logLines (msg : string) (logFn : Text -> Event) : M unit :=
  for_each (fun line => emit (logFn (Plain line))) (split_lines msg).

(** [logWithLevel] of [asyncActionProjectDir]. *)
Definition logWithLevel (chunk : Chunk) : M unit :=
  match msg chunk with
  | None => ret tt
  | Some m =>
      if String.eqb m "" then ret tt
      else if level chunk <=? INFO then logLines m Log
      else if level chunk =? WARN then logLines m LogWarn
      else logLines m LogError
  end.

(** [updateLogs]; [newLogChunks] is what [updater([])] returned. *)
Definition updateLogs (newLogChunks : list Chunk) : M unit :=
  for_each logWithLevel newLogChunks.

(** The [write] of the stream given to [ProjectUtils.attachLoggerStream]. *)
Definition device_write (chunk : Chunk) : M unit :=
  match tag chunk with
  | Some t => if String.eqb t "device" then logWithLevel chunk else ret tt
  | None => ret tt
  end.

(** The three codes of xdl's [NotificationCode] the global stream looks at;
    their values are xdl's and are taken as given. *)
Record NotificationCode := mkNotificationCode {
  START_LOADING : Z;
  STOP_LOADING : Z;
  DOWNLOAD_CLI_PROGRESS : Z
}.

(** What [log(chunk.msg)] is given: the message, or [undefined]. *)
Definition msg_text (chunk : Chunk) : Text :=
  Plain (default "undefined" (msg chunk)).

(** The three level tests of the global stream. *)
Definition by_level (chunk : Chunk) : M unit :=
  if level chunk =? INFO then emit (Log (msg_text chunk))
  else if level chunk =? WARN then emit (LogWarn (msg_text chunk))
  else if ERROR <=? level chunk then emit (LogError (msg_text chunk))
  else ret tt.

(** The [write] of the stream [_registerLogs] adds to [Logger.notifications]
    and [Logger.global]. *)
Definition registerLogs_write (nc : NotificationCode) (chunk : Chunk) : M unit :=
  match code chunk with
  | Some c =>
      if c =? 0 then by_level chunk
      else if c =? START_LOADING nc then emit SpinnerStart
      else if c =? STOP_LOADING nc then emit SpinnerStop
      else if c =? DOWNLOAD_CLI_PROGRESS nc then ret tt
      else by_level chunk
  | None => by_level chunk
  end.

(** The sink an event goes to, when it is a line of text. *)
Inductive Sink := SinkLog | SinkWarn | SinkError.

Definition line_of (e : Event) : option (Sink * string) :=
  match e with
  | Log t => Some (SinkLog, plain_of t)
  | LogWarn t => Some (SinkWarn, plain_of t)
  | LogError t => Some (SinkError, plain_of t)
  | _ => None
  end.

(** The number of newline characters of a message. *)
Fixpoint newlines (s : string) : nat :=
  match s with
  | EmptyString => 0
  | String c s' => (if Ascii.eqb c newline then 1 else 0) + newlines s'
  end.

End LogRouting.

(** ** The server url of [runAsync]

    [if (!serverUrl.startsWith('http')) serverUrl = `http://${serverUrl}`],
    for a [SERVER_URL] that is set and not empty. *)
Definition with_scheme (serverUrl : string) : string :=
  if String.prefix "http" serverUrl then serverUrl
  else "http://" +:+ serverUrl.

Definition server_url (SERVER_URL : option string) : option string :=
  match SERVER_URL with
  | Some s => if String.eqb s "" then None else Some (with_scheme s)
  | None => None
  end.

(** ** Event classes used in the statements *)

Definition is_update_query (e : Event) : bool :=
  match e with CheckForExpUpdate => true | _ => false end.

Definition is_stop (e : Event) : bool :=
  match e with StopAsync _ => true | _ => false end.

Definition is_spinner_or_publish (e : Event) : bool :=
  match e with
  | SpinnerStart | SpinnerStop | PublishAsync _ => true
  | _ => false
  end.

Definition is_console_log (e : Event) : bool :=
  match e with ConsoleLog _ => true | _ => false end.

Definition is_raw_or_send (e : Event) : bool :=
  match e with LogRaw _ | SendUrlAsync _ _ => true | _ => false end.

Definition is_function (commandModule : Exports) : bool :=
  match commandModule with ExpFunction _ => true | _ => false end.

Definition with_debug (b : bool) (w : World) : World :=
  {| EXPO_DEBUG := b; cwd := cwd w; path_resolve := path_resolve w;
     checkForExpUpdateAsync := checkForExpUpdateAsync w;
     loginOrRegisterIfLoggedOut := loginOrRegisterIfLoggedOut w;
     ensureLoggedInAsync := ensureLoggedInAsync w;
     currentStatus := currentStatus w;
     validateLowLatencyAsync := validateLowLatencyAsync w;
     flush := flush w; startAsync := startAsync w;
     getRecipient := getRecipient w; publishAsync := publishAsync w;
     sendUrlAsync := sendUrlAsync w; stopAsync := stopAsync w |}.

Definition with_validate (r : string -> Result DoctorStatus) (w : World) : World :=
  {| EXPO_DEBUG := EXPO_DEBUG w; cwd := cwd w; path_resolve := path_resolve w;
     checkForExpUpdateAsync := checkForExpUpdateAsync w;
     loginOrRegisterIfLoggedOut := loginOrRegisterIfLoggedOut w;
     ensureLoggedInAsync := ensureLoggedInAsync w;
     currentStatus := currentStatus w;
     validateLowLatencyAsync := r;
     flush := flush w; startAsync := startAsync w;
     getRecipient := getRecipient w; publishAsync := publishAsync w;
     sendUrlAsync := sendUrlAsync w; stopAsync := stopAsync w |}.

Definition with_publish (r : string -> Result string) (w : World) : World :=
  {| EXPO_DEBUG := EXPO_DEBUG w; cwd := cwd w; path_resolve := path_resolve w;
     checkForExpUpdateAsync := checkForExpUpdateAsync w;
     loginOrRegisterIfLoggedOut := loginOrRegisterIfLoggedOut w;
     ensureLoggedInAsync := ensureLoggedInAsync w;
     currentStatus := currentStatus w;
     validateLowLatencyAsync := validateLowLatencyAsync w;
     flush := flush w; startAsync := startAsync w;
     getRecipient := getRecipient w; publishAsync := r;
     sendUrlAsync := sendUrlAsync w; stopAsync := stopAsync w |}.

(** * Properties *)

(** ** Concrete runs *)

(** [exp publish] in [/home/u], logged in, server already running. *)
Example publish_run :
  asyncActionProjectDir calm (publish_action calm) true false
    [VUndefined; VCommand no_options] boot
  = (Returned tt,
     extend boot
       [CheckForExpUpdate; LoginOrRegisterIfLoggedOut; EnsureLoggedIn;
        ProcessCwd; NewPackagerLogsStream "/home/u"; AttachLoggerStream "/home/u";
        CurrentStatus "/home/u"; GetRecipient None; Log (Plain "Publishing...");
        PublishAsync "/home/u"; Log (Plain "Published");
        Log (Cat (Plain ("Your URL is" +:+ nl +:+ nl))
               (Cat (Paint underline (Plain "https://exp.host/@u/app")) (Plain nl)));
        LogRaw "https://exp.host/@u/app"; AnalyticsFlush]).
Proof. reflexivity. Qed.

(** [exp p app --offline --output raw]: no login flow, both global flags set. *)
Example publish_offline_raw_run :
  let opts := {| output := Some "raw"; offline := true; nonInteractive := false;
                 quiet := false; sendTo := None |} in
  let r := asyncActionProjectDir calm (publish_action calm) true false
             [VString "app"; VCommand opts] boot in
  fst r = Returned tt /\
  log_config_raw (snd r) = true /\ Config_offline (snd r) = true /\
  take 5 (trace (snd r)) =
    [CheckForExpUpdate; EnsureLoggedIn; ProcessCwd;
     NewPackagerLogsStream "/home/u/app"; AttachLoggerStream "/home/u/app"].
Proof. repeat split. Qed.

(** A build that reports 30 and 70 percent and finishes after 1.5 s. *)
Example build_run :
  let s := LogSink.onFinishBuildBundle false 1000 2500
             (LogSink.progress [30; 70]
                (LogSink.onStartBuildBundle LogSink.init)) in
  LogSink.bars s = [ProgressBar.mk 100 100 true] /\
  LogSink.bar s = None /\
  LogSink.printed s =
    [Paint green (Plain "Finished building JavaScript bundle in 1500ms.")].
Proof. repeat split. Qed.

(** The two command modules register [login] (alias [signin]) and [publish]
    (alias [p]). *)
Example registered_names :
  names_and_aliases
    (publish_default calm (login_default calm succeeding program0))
  = ["login"; "signin"; "publish"; "p"].
Proof. reflexivity. Qed.

(** ** The progress indicator *)

Section ProgressFacts.

Import LogSink.

Lemma tracks_position r c s : tracks r c s -> position s = c.
Proof.
  intros (b & Hbar & Hb & _ & Hc & _).
  unfold position. rewrite Hbar, Hb. exact Hc.
Qed.

Lemma tracks_start s :
  tracks (length (bars s)) p0 (onStartBuildBundle s).
Proof.
  exists (ProgressBar.new 100). cbn.
  repeat split; try lia; try discriminate.
  rewrite lookup_app_r by lia.
  now replace (length (bars s) - length (bars s))%nat with 0%nat by lia.
Qed.

Lemma tracks_tick r c len s :
  0 <= len -> tracks r c s -> tracks r (c + len) (tick_at r len s).
Proof.
  intros Hlen (b & Hbar & Hb & Ht & Hc & Hk).
  unfold tick_at. rewrite Hb.
  exists (ProgressBar.tick len b). cbn.
  split; [exact Hbar|].
  split; [apply list_lookup_insert_eq; eapply lookup_lt_Some; eauto|].
  split; [exact Ht|].
  split; [now rewrite Hc|].
  rewrite Ht, Hc.
  destruct (Z.leb_spec 100 (c + len)) as [Hle|Hlt]; [tauto|].
  destruct (ProgressBar.complete b).
  - assert (100 <= c) by now apply Hk. lia.
  - split; [discriminate|lia].
Qed.

(** A notification moves the position to the larger of the position and
    the percentage. *)
Lemma tracks_onProgress r c p s :
  p <= 100 -> tracks r c s ->
  tracks r (Z.max c p) (onProgressBuildBundle p s).
Proof.
  intros Hp Htr.
  pose proof Htr as (b & Hbar & Hb & Ht & Hc & Hk).
  unfold onProgressBuildBundle. rewrite Hbar, Hb.
  destruct (ProgressBar.complete b) eqn:Hcomp.
  - assert (100 <= c) by now apply Hk.
    now replace (Z.max c p) with c by lia.
  - rewrite Hc.
    destruct (Z.ltb_spec 0 (p - c)).
    + replace (Z.max c p) with (c + (p - c)) by lia.
      apply tracks_tick; [lia|exact Htr].
    + now replace (Z.max c p) with c by lia.
Qed.

Lemma onProgress_not_above s p :
  p <= position s -> onProgressBuildBundle p s = s.
Proof.
  unfold position, onProgressBuildBundle.
  destruct (bar s) as [r|]; [|reflexivity].
  destruct (bars s !! r) as [b|]; [|reflexivity].
  intros Hp. destruct (ProgressBar.complete b); [reflexivity|].
  destruct (Z.ltb_spec 0 (p - ProgressBar.curr b)); [lia|reflexivity].
Qed.

Lemma tracks_progress ps : forall r c s,
  Forall (fun p => p <= 100) ps -> tracks r c s ->
  tracks r (fold_left Z.max ps c) (progress ps s) /\
  Forall (fun d => 0 <= d) (advances ps s) /\
  sumZ (advances ps s) = fold_left Z.max ps c - c.
Proof.
  induction ps as [|p ps IH]; intros r c s Hall Htr;
    cbn [progress advances fold_left].
  - repeat split; [assumption|constructor|cbn; lia].
  - inversion Hall as [|? ? Hp Hps]; subst.
    change (sumZ (?d :: ?l)) with (d + sumZ l).
    pose proof (tracks_onProgress r c p s Hp Htr) as Htr'.
    destruct (IH r (Z.max c p) _ Hps Htr') as (H1 & H2 & H3).
    rewrite (tracks_position _ _ _ Htr), (tracks_position _ _ _ Htr').
    split; [exact H1|]. split; [constructor; [lia|exact H2]|].
    rewrite H3. lia.
Qed.

(** On an increasing run the largest percentage is the last one. *)
Lemma fold_max_sorted ps : forall c,
  StronglySorted Z.lt ps ->
  fold_left Z.max ps c = Z.max c (List.last ps c).
Proof.
  induction ps as [|p ps IH]; intros c Hs; [cbn; lia|].
  inversion Hs as [|? ? Hs' Hlt]; subst.
  cbn [fold_left]. rewrite (IH _ Hs').
  destruct ps as [|q ps]; [cbn; lia|].
  change (List.last (p :: q :: ps) c) with (List.last (q :: ps) c).
  assert (Hq : p < List.last (q :: ps) (Z.max c p)).
  { assert (Hin : In (List.last (q :: ps) (Z.max c p)) (q :: ps)).
    { destruct (exists_last (l := q :: ps)) as (l' & a & ->); [discriminate|].
      rewrite last_last. apply in_or_app. right. now left. }
    rewrite Forall_forall in Hlt. apply Hlt. now apply list_elem_of_In. }
  assert (Heq : forall d d', List.last (q :: ps) d = List.last (q :: ps) d').
  { intros d d'.
    destruct (exists_last (l := q :: ps)) as (l' & a & ->); [discriminate|].
    now rewrite !last_last. }
  rewrite (Heq c (Z.max c p)). lia.
Qed.

Lemma sorted_bounded ps c :
  StronglySorted Z.lt ps -> List.last ps c <= 100 -> c <= 100 ->
  Forall (fun p => p <= 100) ps.
Proof.
  induction ps as [|p ps IH]; intros Hs Hl Hc; [constructor|].
  inversion Hs as [|? ? Hs' Hlt]; subst.
  destruct ps as [|q ps]; [cbn in Hl; repeat constructor; lia|].
  change (List.last (p :: q :: ps) c) with (List.last (q :: ps) c) in Hl.
  pose proof (IH Hs' Hl Hc) as Hall.
  constructor; [|exact Hall].
  inversion Hlt; subst. inversion Hall; subst. lia.
Qed.

Lemma tracks_finish r c err t0 t1 s :
  c <= 100 -> tracks r c s ->
  let s' := onFinishBuildBundle err t0 t1 s in
  bar s' = None /\ bundleProgressBar s' = None /\
  exists b, bars s' !! r = Some b /\
            ProgressBar.curr b = 100 /\ ProgressBar.complete b = true.
Proof.
  intros Hc Htr.
  pose proof Htr as (b & Hbar & Hb & Ht & Hcur & Hk).
  unfold onFinishBuildBundle. rewrite Hbar, Hb.
  destruct (ProgressBar.complete b) eqn:Hcomp.
  - rewrite Hbar. cbn. repeat split.
    exists b. repeat split; trivial.
    assert (100 <= c) by now apply Hk. lia.
  - assert (Hnc : ~ 100 <= c) by (intros H; apply Hk in H; congruence).
    assert (Hlen : 0 <= 100 - ProgressBar.curr b) by lia.
    pose proof (tracks_tick r c (100 - ProgressBar.curr b) s Hlen Htr)
      as (b' & Hbar' & Hb' & _ & Hcur' & Hk').
    rewrite Hbar'. cbn. repeat split.
    exists b'. repeat split; trivial; [lia|].
    apply Hk'. lia.
Qed.

End ProgressFacts.

(** C1.  One build session of the progress indicator.  After a "build
    started" notification the bar stands at [p0 = 0].  For progress
    notifications with increasing percentages [p1 < ... < pn <= 100] (none of
    them below the start, [p0 <= pn]): every notification advances the bar by
    a non-negative amount, a percentage that is not above the current
    position changes nothing, the advances add up to [pn - p0], and a
    following "build finished" notification leaves the bar object at exactly
    100, complete, and clears both references to it. *)
Theorem progress_session
    (s0 : LogSink.state) (ps : list Z) (err : bool) (startTime endTime : Z) :
  StronglySorted Z.lt ps ->
  LogSink.p0 <= List.last ps LogSink.p0 <= 100 ->
  let s1 := LogSink.onStartBuildBundle s0 in
  let s2 := LogSink.progress ps s1 in
  let s3 := LogSink.onFinishBuildBundle err startTime endTime s2 in
  let pn := List.last ps LogSink.p0 in
  LogSink.position s1 = LogSink.p0 /\
  Forall (fun d => 0 <= d) (LogSink.advances ps s1) /\
  (forall s p, p <= LogSink.position s -> LogSink.onProgressBuildBundle p s = s) /\
  LogSink.sumZ (LogSink.advances ps s1) = pn - LogSink.p0 /\
  LogSink.position s2 = pn /\
  exists r b,
    LogSink.bar s2 = Some r /\ LogSink.bundleProgressBar s2 = Some r /\
    LogSink.bars s3 !! r = Some b /\
    ProgressBar.curr b = 100 /\ ProgressBar.complete b = true /\
    LogSink.bar s3 = None /\ LogSink.bundleProgressBar s3 = None.
Proof.
  intros Hs [Hlo Hhi] s1 s2 s3 pn.
  pose proof (tracks_start s0) as Htr. fold s1 in Htr.
  set (r := length (LogSink.bars s0)) in Htr.
  assert (Hall : Forall (fun p => p <= 100) ps).
  { apply (sorted_bounded ps LogSink.p0); trivial. cbn. lia. }
  destruct (tracks_progress ps r LogSink.p0 s1 Hall Htr) as (Htr2 & Hadv & Hsum).
  rewrite (fold_max_sorted ps _ Hs) in Htr2, Hsum.
  replace (Z.max LogSink.p0 (List.last ps LogSink.p0)) with pn in Htr2, Hsum
    by (subst pn; lia).
  fold s2 in Htr2.
  split; [now apply (tracks_position r)|].
  split; [exact Hadv|].
  split; [exact onProgress_not_above|].
  split; [exact Hsum|].
  split; [now apply (tracks_position r)|].
  destruct (tracks_finish r pn err startTime endTime s2 Hhi Htr2)
    as (Hb3 & Hl3 & b & Hb & Hc & Hk).
  exists r, b. repeat split; trivial.
  - now destruct Htr2 as (? & ? & _).
  - assert (Hinv : forall qs s, LogSink.bundleProgressBar (LogSink.progress qs s)
                               = LogSink.bundleProgressBar s).
    { induction qs as [|q qs IH]; intros s; [reflexivity|].
      cbn [LogSink.progress]. rewrite IH.
      unfold LogSink.onProgressBuildBundle, LogSink.tick_at.
      repeat (case_match; try reflexivity). }
    subst s2. now rewrite Hinv.
Qed.

Lemma progress_session_witness :
  LogSink.position
    (LogSink.progress [10; 40; 100] (LogSink.onStartBuildBundle LogSink.init))
  = 100.
Proof.
  refine (proj1 (proj2 (proj2 (proj2 (proj2
    (progress_session LogSink.init [10; 40; 100] false 0 1500 _ _)))))).
  - repeat constructor; lia.
  - cbn. lia.
Defined.

(** ** Process states *)

Lemma extend_nil p : extend p [] = p.
Proof. destruct p; unfold extend; cbn. now rewrite app_nil_r. Qed.

Lemma extend_extend p evs evs' :
  extend (extend p evs) evs' = extend p (evs ++ evs').
Proof. unfold extend; cbn. now rewrite app_assoc. Qed.

Lemma append_assoc (a b c : string) : (a +:+ b) +:+ c = a +:+ (b +:+ c).
Proof.
  induction a as [|x a IH]; [reflexivity|].
  change (String x ((a +:+ b) +:+ c) = String x (a +:+ (b +:+ c))).
  now rewrite IH.
Qed.

(** ** The update checker *)

(** C4.  The mapping of [checkForUpdateAsync] from the [state] field the
    version-check collaborator resolves to: for every value of the field the
    function returns without throwing; "up-to-date" and "ahead-of-published"
    print nothing, "out-of-date" prints one advisory in which both the
    current and the latest version occur, and any other value prints the
    generic confused-state warning. *)
Theorem update_state_mapping (w : World) (info : UpdateInfo) (p : Proc) :
  checkForExpUpdateAsync w = Resolve info ->
  exists out,
    checkForUpdateAsync w p = (Returned tt, extend p (CheckForExpUpdate :: out)) /\
    (state info = "up-to-date" -> out = []) /\
    (state info = "out-of-date" ->
       exists m, out = [CrayonGreenError m] /\
                 contains (current info) m /\ contains (latest info) m) /\
    (state info = "ahead-of-published" -> out = []) /\
    (state info <> "up-to-date" -> state info <> "out-of-date" ->
     state info <> "ahead-of-published" ->
       out = [LogError (Plain "Confused about what version of exp you have?")]).
Proof.
  intros Hq.
  unfold checkForUpdateAsync, bind, await, switch_state. rewrite Hq. cbn.
  destruct (String.eqb_spec (state info) "up-to-date") as [E1|N1].
  { exists []. unfold ret. repeat split; trivial; congruence. }
  destruct (String.eqb_spec (state info) "out-of-date") as [E2|N2].
  { exists [CrayonGreenError (update_message (current info) (latest info))].
    unfold emit. rewrite extend_extend. cbn [app].
    repeat split; trivial; try congruence.
    intros _. eexists. split; [reflexivity|]. unfold update_message. split.
    - exists ("There is a new version of exp available (" +:+ latest info
              +:+ ")." +:+ nl +:+ "You are currently using exp "),
             (nl +:+ "Run `npm install -g exp` to get the latest version").
      now rewrite !append_assoc.
    - exists "There is a new version of exp available (",
             (")." +:+ nl +:+ "You are currently using exp " +:+ current info
              +:+ nl +:+ "Run `npm install -g exp` to get the latest version").
      reflexivity. }
  destruct (String.eqb_spec (state info) "ahead-of-published") as [E3|N3].
  { exists []. unfold ret. repeat split; trivial; congruence. }
  exists [LogError (Plain "Confused about what version of exp you have?")].
  unfold emit. rewrite extend_extend. cbn [app].
  repeat split; trivial; congruence.
Qed.

(** ** The action wrapper *)

Lemma report_tagged debug err p :
  tagged err = true ->
  report debug err p =
    (Returned tt,
     extend p [LogError (if _isCommandError err then Plain (message err)
                         else if _isApiError err then Paint red (Plain (message err))
                         else Plain (message err))]).
Proof.
  unfold tagged, report. intros Ht.
  destruct (_isCommandError err); [reflexivity|].
  destruct (_isApiError err); [reflexivity|].
  destruct (isXDLError err); [reflexivity|discriminate].
Qed.

(** What the catch block prints for an error without marker: the message,
    then the stack or the hint. *)
Lemma report_untagged debug err p :
  tagged err = false ->
  report debug err p =
    (Returned tt,
     extend p [LogError (Plain (message err));
               if debug then CrayonGrayError (stack err)
               else LogError (Paint grey
                 (Plain "Set EXPO_DEBUG=true in your env to view the stack trace."))]).
Proof.
  unfold tagged, report. intros Ht.
  destruct (_isCommandError err); [discriminate|].
  destruct (_isApiError err); [discriminate|].
  destruct (isXDLError err); [discriminate|].
  destruct debug; unfold bind, emit; cbn; now rewrite extend_extend.
Qed.

Lemma report_returns debug err p :
  exists out, report debug err p = (Returned tt, extend p out).
Proof.
  destruct (tagged err) eqn:Ht.
  - eexists. now apply report_tagged.
  - eexists. now apply report_untagged.
Qed.

(** The catch block as a whole: the report, then [process.exit(1)]. *)
Lemma catch_exits w asyncFn skip args p p0 p1 err out :
  when (negb skip) (update_check_best_effort w) p = (Returned tt, p0) ->
  asyncAction_try w asyncFn args p0 = (Thrown err, p1) ->
  report (EXPO_DEBUG w) err p1 = (Returned tt, extend p1 out) ->
  asyncAction w asyncFn skip args p =
    (Exited 1, extend p1 (out ++ [ProcessExit 1])).
Proof.
  intros H0 H1 H2.
  unfold asyncAction, bind. rewrite H0.
  unfold try_catch. rewrite H1. rewrite H2.
  unfold process_exit, emit. now rewrite extend_extend.
Qed.

(** C2.  A handler failure that carries one of the three markers (command
    error, remote-API error, library error): after whatever the handler
    itself had printed, the wrapper prints exactly one [log.error] line and
    ends the process with exit code 1, whatever the debug environment flag.
    The line is the plain message for a command error, the message painted
    red for a remote-API error, the plain message for a library error (the
    markers are tested in this order); no stack trace is printed. *)
Theorem tagged_failure_one_line
    (w : World) (asyncFn : list Value -> M Value) (skipUpdateCheck : bool)
    (args : list Value) (p p0 p1 p2 : Proc) (err : Error) :
  when (negb skipUpdateCheck) (update_check_best_effort w) p = (Returned tt, p0) ->
  read_options args p0 = (Returned tt, p1) ->
  asyncFn args p1 = (Thrown err, p2) ->
  tagged err = true ->
  exists line,
    asyncAction w asyncFn skipUpdateCheck args p =
      (Exited 1, extend p2 [LogError line; ProcessExit 1]) /\
    plain_of line = message err /\
    (_isCommandError err = true -> line = Plain (message err)) /\
    (_isCommandError err = false -> _isApiError err = true ->
       line = Paint red (Plain (message err))) /\
    (_isCommandError err = false -> _isApiError err = false ->
       line = Plain (message err)).
Proof.
  intros H0 H1 H2 Ht.
  eexists. split.
  - eapply (catch_exits w asyncFn skipUpdateCheck args p p0 p2 err [_]); eauto.
    + unfold asyncAction_try, bind. now rewrite H1, H2.
    + now apply report_tagged.
  - destruct (_isCommandError err), (_isApiError err); cbn;
      repeat split; trivial; discriminate.
Qed.

Lemma tagged_failure_one_line_witness :
  asyncAction calm (failing (api_error "Not found")) true
    [VCommand no_options] boot
  = (Exited 1,
     extend boot [LogError (Paint red (Plain "Not found")); ProcessExit 1]).
Proof.
  destruct (tagged_failure_one_line calm (failing (api_error "Not found")) true
              [VCommand no_options] boot boot boot boot (api_error "Not found")
              eq_refl eq_refl eq_refl eq_refl)
    as (line & Hrun & _ & _ & Hred & _).
  rewrite Hrun, (Hred eq_refl eq_refl). reflexivity.
Defined.

Lemma update_state_mapping_witness :
  exists m,
    checkForUpdateAsync
      (with_update (Resolve {| state := "out-of-date"; current := "49.1.0";
                               latest := "50.0.0" |}) calm) boot
    = (Returned tt, extend boot [CheckForExpUpdate; CrayonGreenError m]) /\
    contains "49.1.0" m /\ contains "50.0.0" m.
Proof.
  destruct (update_state_mapping
              (with_update (Resolve {| state := "out-of-date"; current := "49.1.0";
                                       latest := "50.0.0" |}) calm)
              {| state := "out-of-date"; current := "49.1.0"; latest := "50.0.0" |}
              boot eq_refl)
    as (out & Hrun & _ & Hout & _).
  destruct (Hout eq_refl) as (m & -> & Hc & Hl).
  exists m. auto.
Defined.





(** ** The project-directory wrapper: order of the steps *)

Section Ranked.

Lemma sorted_app (l1 l2 : list nat) (mid : nat) :
  StronglySorted le l1 -> StronglySorted le l2 ->
  Forall (fun n => (n <= mid)%nat) l1 -> Forall (fun n => (mid <= n)%nat) l2 ->
  StronglySorted le (l1 ++ l2).
Proof.
  induction l1 as [|a l1 IH]; intros H1 H2 B1 B2; [exact H2|].
  inversion H1 as [|? ? Hs Ha]; subst. inversion B1 as [|? ? Hle Hb]; subst.
  cbn. constructor; [now apply IH|].
  apply Forall_app. split; [exact Ha|].
  eapply Forall_impl; [exact B2|]. cbn. intros; lia.
Qed.

Context {A B : Type}.

Lemma ranked_ret lo hi (a : A) : ranked lo hi (ret a).
Proof.
  intros p. exists []. cbn. rewrite extend_nil.
  repeat split; constructor.
Qed.

Lemma ranked_throw lo hi (e : Error) : ranked lo hi (@throw A e).
Proof.
  intros p. exists []. cbn. rewrite extend_nil.
  repeat split; constructor.
Qed.

Lemma ranked_await lo hi (e : Event) (r : Result A) :
  (lo <= source_rank e <= hi)%nat -> ranked lo hi (await e r).
Proof.
  intros He p. exists [e]. unfold await, emit.
  destruct r; cbn; repeat split; repeat constructor; lia.
Qed.

Lemma ranked_weaken lo hi lo' hi' (m : M A) :
  (lo' <= lo)%nat -> (hi <= hi')%nat -> ranked lo hi m -> ranked lo' hi' m.
Proof.
  intros Hl Hh Hm p. destruct (Hm p) as (evs & H1 & H2 & H3).
  exists evs. repeat split; trivial.
  eapply Forall_impl; [exact H3|]. cbn. intros; lia.
Qed.

Lemma ranked_bind lo mid hi (m : M A) (k : A -> M B) :
  (lo <= mid <= hi)%nat ->
  ranked lo mid m -> (forall a, ranked mid hi (k a)) ->
  ranked lo hi (bind m k).
Proof.
  intros Hb Hm Hk p. destruct (Hm p) as (evs & H1 & H2 & H3).
  unfold bind. destruct (m p) as [[a|e|c] p'] eqn:Hmp; cbn in H1; subst p'.
  - destruct (Hk a (extend p evs)) as (evs' & K1 & K2 & K3).
    exists (evs ++ evs'). rewrite K1, extend_extend, map_app.
    split; [reflexivity|]. split.
    + apply (sorted_app _ _ mid); trivial.
      * rewrite Forall_map. eapply Forall_impl; [exact H3|]. cbn. intros; lia.
      * rewrite Forall_map. eapply Forall_impl; [exact K3|]. cbn. intros; lia.
    + apply Forall_app. split.
      * eapply Forall_impl; [exact H3|]. cbn. intros; lia.
      * eapply Forall_impl; [exact K3|]. cbn. intros; lia.
  - exists evs. repeat split; trivial.
    eapply Forall_impl; [exact H3|]. cbn. intros; lia.
  - exists evs. repeat split; trivial.
    eapply Forall_impl; [exact H3|]. cbn. intros; lia.
Qed.

End Ranked.

Lemma ranked_emit lo hi (e : Event) :
  (lo <= source_rank e <= hi)%nat -> ranked lo hi (emit e).
Proof.
  intros He p. exists [e]. unfold emit. cbn.
  repeat split; repeat constructor; lia.
Qed.

Lemma ranked_when lo hi (b : bool) (m : M unit) :
  ranked lo hi m -> ranked lo hi (when b m).
Proof. destruct b; [trivial|intros _; apply ranked_ret]. Qed.

Lemma ranked_get_prop {A} lo hi v name (proj : Options -> A) undef :
  ranked lo hi (get_prop v name proj undef).
Proof. destruct v; cbn; first [apply ranked_ret|apply ranked_throw]. Qed.

Lemma ranked_update_check w : ranked 0 0 (update_check_best_effort w).
Proof.
  intros p.
  unfold update_check_best_effort, try_catch, checkForUpdateAsync, bind, await,
    switch_state.
  destruct (checkForExpUpdateAsync w) as [info|e]; cbn.
  - repeat case_match; unfold ret, emit in *; simplify_eq;
      (rewrite ?extend_extend; eexists; split; [reflexivity|];
       cbn; split; repeat constructor).
  - eexists; split; [reflexivity|]. cbn; split; repeat constructor.
Qed.

Lemma ranked_authenticate w sa opts : ranked 1 2 (authenticate w sa opts).
Proof.
  unfold authenticate.
  apply (ranked_bind 1 1 2); [lia| |intros login].
  - unfold wants_login. destruct sa; [apply ranked_ret|].
    apply (ranked_bind 1 1 1); [lia|apply ranked_get_prop|intros ni].
    destruct ni; [apply ranked_ret|].
    apply (ranked_bind 1 1 1); [lia|apply ranked_get_prop|intros; apply ranked_ret].
  - apply (ranked_bind 1 1 2); [lia| |intros _].
    + apply ranked_when, ranked_await. cbn; lia.
    + apply ranked_when, ranked_await. cbn; lia.
Qed.

Lemma ranked_resolve w v : ranked 3 3 (resolve_projectDir w v).
Proof.
  unfold resolve_projectDir.
  apply (ranked_bind 3 3 3); [lia|apply ranked_emit; cbn; lia|intros _].
  destruct (truthy v); [|apply ranked_ret].
  destruct v; first [apply ranked_ret|apply ranked_throw].
Qed.

Lemma ranked_attach dir : ranked 4 4 (attach_logs dir).
Proof.
  unfold attach_logs.
  apply (ranked_bind 4 4 4); [lia|apply ranked_emit; cbn; lia|intros _].
  apply ranked_emit; cbn; lia.
Qed.

Lemma ranked_validate w sv dir : ranked 5 5 (validate_project w sv dir).
Proof.
  unfold validate_project. destruct sv; [apply ranked_ret|].
  apply (ranked_bind 5 5 5); [lia|apply ranked_await; cbn; lia|intros status].
  destruct (String.eqb status "running"); [apply ranked_ret|].
  apply (ranked_bind 5 5 5); [lia|apply ranked_emit; cbn; lia|intros _].
  apply (ranked_bind 5 5 5); [lia|apply ranked_emit; cbn; lia|intros _].
  apply (ranked_bind 5 5 5); [lia|apply ranked_await; cbn; lia|intros st].
  destruct (is_FATAL st); [apply ranked_throw|].
  apply (ranked_bind 5 5 5); [lia|apply ranked_emit; cbn; lia|intros _].
  apply ranked_emit; cbn; lia.
Qed.

Lemma ranked_before_delegation w sv sa all :
  ranked 0 5 (before_delegation w sv sa all).
Proof.
  unfold before_delegation.
  apply (ranked_bind 0 0 5); [lia|apply ranked_update_check|intros _].
  apply (ranked_bind 0 2 5); [lia| |intros _].
  { apply (ranked_weaken 1 2); [lia|lia|apply ranked_authenticate]. }
  apply (ranked_bind 2 3 5); [lia| |intros dir].
  { apply (ranked_weaken 3 3); [lia|lia|apply ranked_resolve]. }
  apply (ranked_bind 3 4 5); [lia| |intros _].
  { apply (ranked_weaken 4 4); [lia|lia|apply ranked_attach]. }
  apply (ranked_bind 4 5 5); [lia| |intros _; apply ranked_ret].
  apply (ranked_weaken 5 5); [lia|lia|apply ranked_validate].
Qed.

Lemma extend_inj p evs evs' : extend p evs = extend p evs' -> evs = evs'.
Proof.
  unfold extend. intros H. injection H as H. now apply app_inv_head in H.
Qed.

Lemma update_check_returns w p :
  exists uev, update_check_best_effort w p = (Returned tt, extend p uev).
Proof.
  unfold update_check_best_effort, try_catch, checkForUpdateAsync, bind, await,
    switch_state.
  destruct (checkForExpUpdateAsync w) as [info|e]; cbn.
  - repeat case_match; unfold ret, emit in *; simplify_eq;
      rewrite ?extend_extend; eexists; reflexivity.
  - eexists; reflexivity.
Qed.

Lemma wants_login_state sa opts p : snd (wants_login sa opts p) = p.
Proof.
  unfold wants_login, bind, get_prop.
  destruct sa; [reflexivity|]. destruct opts; cbn; try reflexivity.
  destruct (nonInteractive o); reflexivity.
Qed.

(** The authentication block, when it returns: the session assertion was
    made unless it is skipped. *)
Lemma authenticate_returned w sa opts p p' :
  authenticate w sa opts p = (Returned tt, p') ->
  exists aev, p' = extend p aev /\ (sa = false -> In EnsureLoggedIn aev).
Proof.
  unfold authenticate, bind.
  pose proof (wants_login_state sa opts p) as Hst.
  destruct (wants_login sa opts p) as [[login|e|c] q]; cbn in Hst; subst q;
    [|discriminate..].
  unfold when, await, emit, ret.
  destruct login; cbn.
  - destruct (loginOrRegisterIfLoggedOut w); [|discriminate].
    destruct sa; cbn.
    + intros H; inversion H; subst; clear H. eexists; split; [reflexivity|discriminate].
    + destruct (ensureLoggedInAsync w); [|discriminate].
      intros H; inversion H; subst; clear H. rewrite extend_extend. eexists; split; [reflexivity|].
      intros _. cbn. auto.
  - destruct sa; cbn.
    + intros H; inversion H; subst; clear H. exists []. now rewrite extend_nil.
    + destruct (ensureLoggedInAsync w); [|discriminate].
      intros H; inversion H; subst; clear H. eexists; split; [reflexivity|]. intros _. cbn. auto.
Qed.

Lemma resolve_returned w v p dir p' :
  resolve_projectDir w v p = (Returned dir, p') ->
  p' = extend p [ProcessCwd] /\
  (truthy v = false -> dir = cwd w) /\
  (forall s, v = VString s -> truthy v = true -> dir = path_resolve w (cwd w) s).
Proof.
  unfold resolve_projectDir, bind, emit. cbn.
  destruct (truthy v) eqn:Ht.
  - destruct v; try discriminate. unfold ret. intros [= <- <-].
    repeat split; [discriminate|]. now intros ? [= ->].
  - unfold ret. intros [= <- <-]. repeat split; discriminate.
Qed.

Lemma validate_returned w sv dir p p' :
  validate_project w sv dir p = (Returned tt, p') ->
  exists vev, p' = extend p vev.
Proof.
  intros H. destruct (ranked_validate w sv dir p) as (vev & Hv & _).
  rewrite H in Hv. now exists vev.
Qed.

(** When everything before the delegation has succeeded: every step was
    made, and the directory is the resolved one. *)
Lemma before_delegation_returned w sv sa all p dir p' :
  before_delegation w sv sa all p = (Returned dir, p') ->
  exists evs,
    p' = extend p evs /\
    (sa = false -> In EnsureLoggedIn evs) /\
    In ProcessCwd evs /\
    In (NewPackagerLogsStream dir) evs /\
    In (AttachLoggerStream dir) evs /\
    (truthy (hd VUndefined all) = false -> dir = cwd w) /\
    (forall s, hd VUndefined all = VString s -> truthy (VString s) = true ->
       dir = path_resolve w (cwd w) s).
Proof.
  unfold before_delegation, bind.
  destruct (update_check_returns w p) as (uev & ->).
  destruct (authenticate w sa (hd VUndefined (tl all)) (extend p uev))
    as [[[]|e|c] q] eqn:Hauth; [|discriminate..].
  destruct (authenticate_returned _ _ _ _ _ Hauth) as (aev & -> & Hens).
  destruct (resolve_projectDir w (hd VUndefined all) _)
    as [[d|e|c] q] eqn:Hres; [|discriminate..].
  destruct (resolve_returned _ _ _ _ _ Hres) as (-> & Hcwd & Hpath).
  unfold attach_logs, bind, emit. cbn.
  destruct (validate_project w sv d _) as [[[]|e|c] q] eqn:Hval; [|discriminate..].
  destruct (validate_returned _ _ _ _ _ Hval) as (vev & ->).
  unfold ret. intros [= <- <-]. rewrite !extend_extend.
  eexists. split; [reflexivity|].
  repeat split.
  - intros Hsa. rewrite !in_app_iff. auto.
  - rewrite !in_app_iff. cbn. auto.
  - rewrite !in_app_iff. cbn. auto 7.
  - rewrite !in_app_iff. cbn. auto 9.
  - exact Hcwd.
  - intros s Hs Ht. apply (Hpath s Hs). now rewrite Hs.
Qed.

(** The order in which section 4.3 lists the steps is not the order of the
    run: with a directory argument and an interactive session, the login
    flow and the session assertion come before the working directory is
    read. *)
Lemma listed_order_violated :
  let evs :=
    trace (snd (before_delegation calm true false
                  [VString "app"; VCommand no_options] boot)) in
  evs = [CheckForExpUpdate; LoginOrRegisterIfLoggedOut; EnsureLoggedIn;
         ProcessCwd; NewPackagerLogsStream "/home/u/app";
         AttachLoggerStream "/home/u/app"] /\
  ~ StronglySorted le (map listed_rank evs).
Proof.
  split; [reflexivity|].
  cbn. intros H.
  inversion H as [|? ? H1 _]; subst.
  inversion H1 as [|? ? _ F]; subst.
  inversion F as [|? ? _ F']; subst.
  inversion F' as [|? ? Hle _]; subst. lia.
Qed.

(** C3 (amended).  One invocation of a command wrapped by
    [asyncActionProjectDir] runs its steps in the order of the source:
    update check, login-or-register flow, session assertion, resolution of
    the working directory, attachment of the two log streams, project
    validation: no event of a step comes after an event of a later step,
    whatever the collaborators answer.  When all of them have succeeded,
    the directory was resolved (the current directory for a missing
    argument, [path.resolve] of it otherwise), the streams were attached to
    it, and the handler is called with it in front of the other
    arguments. *)
Theorem project_dir_steps_in_source_order
    (w : World) (asyncFn : string -> list Value -> M Value)
    (skipProjectValidation skipAuthCheck : bool) (all : list Value) (p : Proc) :
  exists evs,
    snd (before_delegation w skipProjectValidation skipAuthCheck all p)
      = extend p evs /\
    StronglySorted le (map source_rank evs) /\
    forall dir p',
      before_delegation w skipProjectValidation skipAuthCheck all p
        = (Returned dir, p') ->
      (skipAuthCheck = false -> In EnsureLoggedIn evs) /\
      In ProcessCwd evs /\
      In (NewPackagerLogsStream dir) evs /\
      In (AttachLoggerStream dir) evs /\
      (truthy (hd VUndefined all) = false -> dir = cwd w) /\
      (forall s, hd VUndefined all = VString s -> truthy (VString s) = true ->
         dir = path_resolve w (cwd w) s) /\
      asyncActionProjectDir_fn w asyncFn skipProjectValidation skipAuthCheck all p
        = asyncFn dir (tl all) p'.
Proof.
  destruct (ranked_before_delegation w skipProjectValidation skipAuthCheck all p)
    as (evs & Hevs & Hsorted & _).
  exists evs. split; [exact Hevs|]. split; [exact Hsorted|].
  intros dir p' Hret.
  destruct (before_delegation_returned _ _ _ _ _ _ _ Hret)
    as (evs' & Hp' & Hens & Hcwd & Hnew & Hatt & Hd1 & Hd2).
  rewrite Hret in Hevs. cbn in Hevs. rewrite Hp' in Hevs.
  apply extend_inj in Hevs. subst evs'.
  repeat split; trivial.
  unfold asyncActionProjectDir_fn, bind. now rewrite Hret.
Qed.

(** ** The project-directory wrapper: authentication *)







(** ** The publish command *)

(** C10.  On its success path the publish action leaves the dev server as
    it found it.  When the first status query answers "running", publishing
    is the only call made to the server: neither [startAsync] nor
    [stopAsync] is called.  When it answers anything else, the calls are, in
    this order and once each, [startAsync], [publishAsync] and [stopAsync],
    all on the directory the action was given: [stopAsync] is called exactly
    when the action started the server itself. *)
Theorem publish_leaves_server_as_found
    (w : World) (projectDir : string) (options : Options) (p p' : Proc)
    (result : Value) :
  action w projectDir options p = (Returned result, p') ->
  exists status evs,
    currentStatus w projectDir = Resolve status /\
    p' = extend p evs /\
    (status = "running" ->
       filter server_call evs = [PublishAsync projectDir]) /\
    (status <> "running" ->
       filter server_call evs =
         [StartAsync projectDir (negb (quiet options));
          PublishAsync projectDir;
          StopAsync projectDir]).
Proof.
  unfold action, bind, await, emit, when, ret.
  destruct (currentStatus w projectDir) as [status|e] eqn:Hst; [|discriminate].
  cbn.
  destruct (String.eqb_spec status "running") as [Hrun|Hrun]; cbn.
  - destruct (getRecipient w (sendTo options)) as [[r|]|e]; [| |discriminate];
      destruct (quiet options); cbn;
      destruct (publishAsync w projectDir) as [url|e]; try discriminate; cbn;
      try (destruct (String.eqb r ""); cbn;
           [|destruct (sendUrlAsync w url r) as [[]|e]; try discriminate; cbn]);
      intros H; injection H as _ Hp; subst p';
      exists status; rewrite ?extend_extend; eexists;
      (split; [reflexivity|]); (split; [reflexivity|]);
      (split; [intros _; reflexivity|congruence]).
  - destruct (startAsync w projectDir) as [[]|e]; [|discriminate]. cbn.
    destruct (getRecipient w (sendTo options)) as [[r|]|e]; [| |discriminate];
      destruct (quiet options); cbn;
      destruct (publishAsync w projectDir) as [url|e]; try discriminate; cbn;
      try (destruct (String.eqb r ""); cbn;
           [|destruct (sendUrlAsync w url r) as [[]|e]; try discriminate; cbn]);
      (destruct (stopAsync w projectDir) as [[]|e]; [|discriminate]); cbn;
      intros H; injection H as _ Hp; subst p';
      exists status; rewrite ?extend_extend; eexists;
      (split; [reflexivity|]); (split; [reflexivity|]);
      (split; [congruence|intros _; reflexivity]).
Qed.

Lemma publish_leaves_server_as_found_witness :
  exists evs,
    snd (action (with_status (fun _ => Resolve "exited") calm)
           "/home/u/app" no_options boot) = extend boot evs /\
    filter server_call evs =
      [StartAsync "/home/u/app" true; PublishAsync "/home/u/app";
       StopAsync "/home/u/app"].
Proof.
  destruct (publish_leaves_server_as_found
              (with_status (fun _ => Resolve "exited") calm)
              "/home/u/app" no_options boot _ _ eq_refl)
    as (status & evs & Hs & Hp & _ & Hstop).
  exists evs. split; [exact Hp|].
  apply Hstop. cbn in Hs. injection Hs as <-. discriminate.
Defined.

(** ** The cross-cutting flags *)

(** The login command declares [--non-interactive] only: it does not accept
    [--offline]. *)
Lemma login_rejects_offline :
  exists program,
    register_commands (command_files calm succeeding) program0 boot
      = (Returned program, boot) /\
    map _name (commands program) = ["login"; "publish"] /\
    forallb (fun c => accepts c "--offline") (commands program) = false /\
    existsb (fun c => String.eqb (_name c) "login" && negb (accepts c "--offline"))
      (commands program) = true.
Proof. eexists. repeat split. Qed.

Lemma accepts_allowOffline (c : Command) : accepts (allowOffline c) "--offline" = true.
Proof.
  unfold accepts, allowOffline, Command_option. cbn [options].
  rewrite existsb_app. cbn. apply orb_true_r.
Qed.

(** C9 (amended).  The two cross-cutting flags are not available on every
    command: each is declared command by command.  A command to which
    [allowOffline] has been applied accepts [--offline], one to which
    [allowNonInteractive] has been applied accepts [--non-interactive], and
    the builder calls that follow in the chain keep every flag the command
    accepts.  The login and publish commands, as their modules register
    them, call [allowNonInteractive] only: each accepts [--non-interactive]
    and neither accepts [--offline]. *)
Theorem cross_cutting_flags_are_opt_in
    (w : World) (login : list Value -> M Value) (p : Proc) :
  exists program,
    register_commands (command_files w login) program0 p = (Returned program, p) /\
    map _name (commands program) = ["login"; "publish"] /\
    Forall (fun c => accepts c "--non-interactive" = true /\
                     accepts c "--offline" = false)
           (commands program) /\
    (forall c, accepts (allowOffline c) "--offline" = true) /\
    (forall c, accepts (allowNonInteractive c) "--non-interactive" = true) /\
    (forall c flag, accepts c flag = true ->
       forall fl d a fn,
         accepts (Command_option fl d c) flag = true /\
         accepts (Command_alias a c) flag = true /\
         accepts (Command_description d c) flag = true /\
         accepts (Command_action fn c) flag = true).
Proof.
  eexists. split; [reflexivity|]. split; [reflexivity|].
  split; [repeat constructor|]. split; [exact accepts_allowOffline|].
  split.
  - intros c. unfold accepts, allowNonInteractive, Command_option. cbn [options].
    rewrite existsb_app. cbn. apply orb_true_r.
  - intros c flag Hacc fl d a fn. repeat split; try exact Hacc.
    unfold accepts, Command_option. cbn [options].
    rewrite existsb_app. unfold accepts in Hacc. now rewrite Hacc.
Qed.

(** ** The command registry *)

(** Without a [null] or [undefined] module the loop goes through the whole
    directory: every function or default-exported function registers, in the
    order of the files, and every other module costs one error line. *)
Lemma register_commands_skips_malformed files : forall program p,
  Forall (fun fm => nullish (snd fm) = false) files ->
  register_commands files program p =
    (Returned (fold_left (fun pr fm => registered_by (snd fm) pr) files program),
     extend p
       (map (fun fm => LogError (Plain ("'" +:+ fst fm +:+
                                        ".js' is not a properly formatted command.")))
            (filter (fun fm => malformed (snd fm)) files))).
Proof.
  induction files as [|[file m] files IH]; intros program p Hall.
  - cbn. now rewrite extend_nil.
  - inversion Hall as [|? ? Hm Hrest]; subst. cbn in Hm.
    cbn [register_commands]. unfold bind.
    destruct m as [f|[f|]|]; try discriminate; cbn.
    + now rewrite IH.
    + now rewrite IH.
    + rewrite IH by assumption. now rewrite extend_extend.
Qed.

(** A [null] module stops the loop where it stands: what came before it is
    registered or reported, nothing after it is looked at. *)
Lemma register_commands_stops_at_nullish before file after : forall program p,
  Forall (fun fm => nullish (snd fm) = false) before ->
  register_commands (before ++ (file, ExpNullish) :: after) program p =
    (Thrown (type_error "Cannot read property 'default' of null"),
     extend p
       (map (fun fm => LogError (Plain ("'" +:+ fst fm +:+
                                        ".js' is not a properly formatted command.")))
            (filter (fun fm => malformed (snd fm)) before))).
Proof.
  induction before as [|[f m] before IH]; intros program p Hall.
  - cbn. now rewrite extend_nil.
  - inversion Hall as [|? ? Hm Hrest]; subst. cbn in Hm.
    cbn [app register_commands]. unfold bind.
    destruct m as [g|[g|]|]; try discriminate; cbn.
    + now rewrite IH.
    + now rewrite IH.
    + rewrite IH by assumption. now rewrite extend_extend.
Qed.

(** C7.  A module of the commands directory whose export is [null] (or
    [undefined]) exports neither a function nor a function under [default],
    yet it is not logged and skipped: reading its [default] slot throws, the
    loop stops, the modules after it are not registered and the entry point
    ends the process with exit code 1.  The same directory with an empty
    object in its place logs the error line and registers the login and
    publish commands. *)
Theorem nullish_module_aborts_registration :
  let te := type_error "Cannot read property 'default' of null" in
  run calm (("commands/broken.js", ExpNullish) :: command_files calm succeeding)
    [] ["node"; "exp"; "login"] boot
  = (Exited 1, extend boot [ConsoleError te; ConsoleError te; ProcessExit 1])
  /\
  run calm (("commands/broken.js", ExpObject None) :: command_files calm succeeding)
    [] ["node"; "exp"; "login"] boot
  = (Returned tt,
     extend boot
       [LogError (Plain "'commands/broken.js.js' is not a properly formatted command.");
        Dispatch "login" []]).
Proof. split; reflexivity. Qed.

(** ** The entry point: unknown sub-command and help *)


(** What follows the parse is the same whatever the parse was. *)
Lemma dispatch_after_parse program argv :
  dispatch program argv = (program_parse program argv ;; after_parse program argv).
Proof. reflexivity. Qed.



(** * Further properties of the wrappers *)

(** ** [asyncAction] as error boundary *)

Lemma when_update_returns w b p :
  exists uev, when b (update_check_best_effort w) p = (Returned tt, extend p uev).
Proof.
  destruct b; cbn.
  - apply update_check_returns.
  - exists []. unfold ret. now rewrite extend_nil.
Qed.

(** X1.  For failures that are error objects (every failure of the
    embedding is one; a rejection with [undefined] or [null] is not
    covered), [asyncAction] lets no exception through: a run of the wrapped
    action returns, or ends the process with exit code 1, or ends the
    process because the handler itself has called [process.exit]. *)
Theorem asyncAction_never_throws
    (w : World) (asyncFn : list Value -> M Value) (skipUpdateCheck : bool)
    (args : list Value) (p : Proc) :
  let r := asyncAction w asyncFn skipUpdateCheck args p in
  fst r = Returned tt \/
  fst r = Exited 1 \/
  exists q c q', asyncFn args q = (Exited c, q') /\ fst r = Exited c.
Proof.
  cbn zeta. unfold asyncAction, bind.
  destruct (when_update_returns w (negb skipUpdateCheck) p) as (uev & ->).
  unfold try_catch, asyncAction_try, bind.
  destruct (read_options args (extend p uev)) as [[[]|e|c] p1] eqn:Hopt.
  - destruct (asyncFn args p1) as [[v|e|c] p2] eqn:Hfn.
    + unfold await, emit. destruct (flush w) as [[]|e]; cbn; [now left|].
      destruct (report_returns (EXPO_DEBUG w) e (extend p2 [AnalyticsFlush]))
        as (out & ->).
      right; left. reflexivity.
    + destruct (report_returns (EXPO_DEBUG w) e p2) as (out & ->).
      right; left. reflexivity.
    + right; right. exists p1, c, p2. split; [exact Hfn|reflexivity].
  - destruct (report_returns (EXPO_DEBUG w) e p1) as (out & ->).
    right; left. reflexivity.
  - exfalso. revert Hopt.
    unfold read_options, bind, get_prop, when, set_log_config_raw,
      set_Config_offline, ret, throw.
    destruct (List.last args VUndefined) as [|s|o|u]; try discriminate;
      try (destruct (is_raw (output o)), (offline o); discriminate).
Qed.

(** X2.  A handler failure without any of the three markers: the wrapper
    prints the message, then the stack through [crayon.gray.error] when
    [EXPO_DEBUG] is set and the hint to set it otherwise, and ends the
    process with exit code 1. *)
Theorem untagged_failure_two_lines
    (w : World) (asyncFn : list Value -> M Value) (skipUpdateCheck : bool)
    (args : list Value) (p p0 p1 p2 : Proc) (err : Error) :
  when (negb skipUpdateCheck) (update_check_best_effort w) p = (Returned tt, p0) ->
  read_options args p0 = (Returned tt, p1) ->
  asyncFn args p1 = (Thrown err, p2) ->
  tagged err = false ->
  asyncAction w asyncFn skipUpdateCheck args p =
    (Exited 1,
     extend p2
       [LogError (Plain (message err));
        if EXPO_DEBUG w then CrayonGrayError (stack err)
        else LogError (Paint grey
               (Plain "Set EXPO_DEBUG=true in your env to view the stack trace."));
        ProcessExit 1]).
Proof.
  intros H0 H1 H2 Ht.
  apply (catch_exits w asyncFn skipUpdateCheck args p p0 p2 err [_; _]); trivial.
  - unfold asyncAction_try, bind. now rewrite H1, H2.
  - now apply report_untagged.
Qed.

Lemma untagged_failure_two_lines_witness :
  asyncAction (with_debug true calm) (failing (plain_error "boom")) true
    [VCommand no_options] boot
  = (Exited 1,
     extend boot [LogError (Plain "boom"); CrayonGrayError "Error: boom";
                  ProcessExit 1]).
Proof.
  exact (untagged_failure_two_lines (with_debug true calm)
           (failing (plain_error "boom")) true [VCommand no_options]
           boot boot boot boot (plain_error "boom")
           eq_refl eq_refl eq_refl eq_refl).
Defined.

(** X3.  When the action is called without arguments, or with [undefined]
    as its last argument, reading [options.output] throws inside the [try]
    block: the handler is never called, the [TypeError] is reported and the
    process exits with code 1. *)
Theorem no_options_object_no_handler
    (w : World) (skipUpdateCheck : bool) (args : list Value) (p : Proc) :
  List.last args VUndefined = VUndefined ->
  exists q,
    (forall asyncFn, asyncAction w asyncFn skipUpdateCheck args p = (Exited 1, q)) /\
    In (LogError (Plain "Cannot read property 'output' of undefined")) (trace q) /\
    In (ProcessExit 1) (trace q).
Proof.
  intros Hlast.
  destruct (when_update_returns w (negb skipUpdateCheck) p) as (uev & Hu).
  set (te := type_error "Cannot read property 'output' of undefined").
  assert (Hopt : read_options args (extend p uev) = (Thrown te, extend p uev)).
  { unfold read_options, bind, get_prop. now rewrite Hlast. }
  exists (extend (extend p uev)
            ([LogError (Plain (message te));
              if EXPO_DEBUG w then CrayonGrayError (stack te)
              else LogError (Paint grey
                     (Plain "Set EXPO_DEBUG=true in your env to view the stack trace."))]
             ++ [ProcessExit 1])).
  split; [|split].
  - intros asyncFn.
    apply (catch_exits w asyncFn skipUpdateCheck args p (extend p uev) _ te);
      trivial.
    + unfold asyncAction_try, bind. now rewrite Hopt.
    + now apply report_untagged.
  - cbn. rewrite !in_app_iff. cbn. auto.
  - cbn. rewrite !in_app_iff. cbn. auto 6.
Qed.

Lemma no_options_object_no_handler_witness :
  exists q,
    (forall asyncFn, asyncAction calm asyncFn true [] boot = (Exited 1, q)) /\
    In (LogError (Plain "Cannot read property 'output' of undefined")) (trace q) /\
    In (ProcessExit 1) (trace q).
Proof. exact (no_options_object_no_handler calm true [] boot eq_refl). Defined.



Lemma update_check_shape (w : World) (p : Proc) :
  exists out,
    update_check_best_effort w p =
      (Returned tt, extend p (CheckForExpUpdate :: out)) /\
    (length out <= 1)%nat /\
    List.filter is_update_query out = [] /\
    forall e, checkForExpUpdateAsync w = Reject e ->
      out = [] /\
      checkForUpdateAsync w p = (Thrown e, extend p [CheckForExpUpdate]).
Proof.
  unfold update_check_best_effort, try_catch, checkForUpdateAsync, bind, await,
    switch_state.
  destruct (checkForExpUpdateAsync w) as [info|e0]; cbn.
  - repeat case_match; unfold ret, emit in *; simplify_eq;
      rewrite ?extend_extend; eexists; (split; [reflexivity|]);
      (split; [cbn; lia|]); (split; [reflexivity|]); intros e He; discriminate.
  - exists []. split; [reflexivity|]. split; [cbn; lia|]. split; [reflexivity|].
    intros e [= ->]. split; reflexivity.
Qed.

(** X5.  The update check as the wrappers run it is best-effort: it always
    returns, after the query it makes at most one call of a printing
    function (one message: the advisory of an out-of-date version, which
    spans three lines, or the one-line warning), and when the query rejects
    it prints nothing.  [checkForUpdateAsync] itself does not swallow that
    rejection: it rejects with the same error. *)
Theorem update_check_is_best_effort (w : World) (p : Proc) :
  exists out,
    update_check_best_effort w p =
      (Returned tt, extend p (CheckForExpUpdate :: out)) /\
    (length out <= 1)%nat /\
    forall e, checkForExpUpdateAsync w = Reject e ->
      out = [] /\
      checkForUpdateAsync w p = (Thrown e, extend p [CheckForExpUpdate]).
Proof.
  destruct (update_check_shape w p) as (out & H1 & H2 & _ & H4).
  exists out. auto.
Qed.

(** ** [asyncActionProjectDir]: update check, validation, option lookup *)

Lemma ranked_after_update w sv sa all :
  ranked 1 5
    (authenticate w sa (hd VUndefined (tl all)) ;;
     projectDir <- resolve_projectDir w (hd VUndefined all) ;;
     attach_logs projectDir ;;
     validate_project w sv projectDir ;;
     ret projectDir).
Proof.
  apply (ranked_bind 1 2 5); [lia|apply ranked_authenticate|intros _].
  apply (ranked_bind 2 3 5); [lia| |intros dir].
  { apply (ranked_weaken 3 3); [lia|lia|apply ranked_resolve]. }
  apply (ranked_bind 3 4 5); [lia| |intros _].
  { apply (ranked_weaken 4 4); [lia|lia|apply ranked_attach]. }
  apply (ranked_bind 4 5 5); [lia| |intros _; apply ranked_ret].
  apply (ranked_weaken 5 5); [lia|lia|apply ranked_validate].
Qed.

(** X6.  A command wrapped by [asyncActionProjectDir] queries the update
    service exactly once before its handler, as the first thing it does:
    the check of [asyncAction] is switched off and the one of the inner
    function is made whatever the arguments and whatever fails later. *)
Theorem project_dir_checks_update_once
    (w : World) (skipProjectValidation skipAuthCheck : bool)
    (all : list Value) (p : Proc) :
  exists evs,
    snd (before_delegation w skipProjectValidation skipAuthCheck all p)
      = extend p evs /\
    head evs = Some CheckForExpUpdate /\
    List.filter is_update_query evs = [CheckForExpUpdate] /\
    forall asyncFn args q,
      asyncActionProjectDir w asyncFn skipProjectValidation skipAuthCheck args q
      = try_catch
          (asyncAction_try w
             (asyncActionProjectDir_fn w asyncFn skipProjectValidation skipAuthCheck)
             args)
          (fun err => report (EXPO_DEBUG w) err ;; process_exit 1) q.
Proof.
  destruct (update_check_shape w p) as (out & Hu & _ & Hout & _).
  destruct (ranked_after_update w skipProjectValidation skipAuthCheck all
              (extend p (CheckForExpUpdate :: out)))
    as (evs & Hevs & _ & Hrank).
  exists ((CheckForExpUpdate :: out) ++ evs).
  split; [|split; [reflexivity|split]].
  - unfold before_delegation. unfold bind at 1. rewrite Hu.
    rewrite <- extend_extend. exact Hevs.
  - assert (Hrest : List.filter is_update_query evs = []).
    { clear Hevs. induction Hrank as [|e evs He _ IH]; [reflexivity|].
      cbn. rewrite IH. destruct e; cbn in *; try reflexivity; lia. }
    cbn [app List.filter is_update_query].
    change (CheckForExpUpdate :: List.filter is_update_query (out ++ evs) =
            [CheckForExpUpdate]).
    now rewrite List.filter_app, Hout, Hrest.
  - intros asyncFn args q. reflexivity.
Qed.

(** What the validation step does, case by case. *)
Lemma validate_project_cases w sv dir p :
  exists vev,
    snd (validate_project w sv dir p) = extend p vev /\
    (In SpinnerStart vev ->
       (In SpinnerStop vev <-> fst (validate_project w sv dir p) = Returned tt)) /\
    (In (ValidateLowLatency dir) vev -> In SpinnerStart vev) /\
    (In (CurrentStatus dir) vev <-> sv = false) /\
    (In (ValidateLowLatency dir) vev <->
       sv = false /\
       exists st, currentStatus w dir = Resolve st /\ st <> "running") /\
    (In (ValidateLowLatency dir) vev ->
     validateLowLatencyAsync w dir = Resolve FATAL ->
       fst (validate_project w sv dir p) =
         Thrown (plain_error
           "There is an error with your project. See above logs for information.")).
Proof.
  unfold validate_project, bind, await, emit, ret, throw.
  destruct sv; cbn.
  { exists []. rewrite extend_nil. cbn.
    split; [reflexivity|]. repeat split; try tauto; try discriminate.
    intros [Hf _]; discriminate. }
  destruct (currentStatus w dir) as [st|e] eqn:Hst; cbn.
  - destruct (String.eqb_spec st "running") as [Hr|Hr]; cbn.
    + eexists; split; [reflexivity|]. cbn.
      split; [intros [H|[]]; discriminate|].
      split; [intros [H|[]]; discriminate|].
      split; [tauto|].
      split; [|intros [H|[]]; discriminate].
      split; [intros [H|[]]; discriminate|].
      intros (_ & st' & Heq & Hne). injection Heq as <-. contradiction.
    + assert (Hdoc : false = false /\
                     exists st', Resolve st = Resolve st' /\ st' <> "running")
        by (split; [reflexivity|exists st; auto]).
      destruct (validateLowLatencyAsync w dir) as [d|e] eqn:Hv; cbn.
      * destruct d; cbn; rewrite ?extend_extend;
          (eexists; split; [reflexivity|]); cbn;
          (split; [intros _; split;
                     [intros Hs; first [reflexivity|exfalso; intuition discriminate]
                     |intros Hq; first [discriminate Hq|auto 10]]
                  |split; [auto 10|split; [tauto|split; [tauto|]]]]);
          first [intros _ Hd; discriminate Hd | intros _ _; reflexivity].
      * rewrite ?extend_extend. eexists; split; [reflexivity|]. cbn.
        split; [intros _; split; [|discriminate]|
                split; [auto 10|split; [tauto|split; [tauto|]]]];
          [intuition discriminate|intros _ Hd; discriminate Hd].
  - eexists; split; [reflexivity|]. cbn.
    split; [intros [H|[]]; discriminate|].
    split; [intros [H|[]]; discriminate|].
    split; [tauto|].
    split; [|intros [H|[]]; discriminate].
    split; [intros [H|[]]; discriminate|].
    intros (_ & st' & Heq & _). discriminate.
Qed.

(** X7.  The project validation starts the spinner before it asks Doctor
    and stops it only on the way out: whenever the spinner was started, it
    is stopped if and only if the validation returns.  A fatal outcome (or a
    rejection of Doctor) therefore leaves the spinner running, and the fatal
    outcome is thrown as a plain error without marker. *)
Theorem failed_validation_leaves_spinner
    (w : World) (skipProjectValidation : bool) (projectDir : string) (p : Proc) :
  exists vev,
    snd (validate_project w skipProjectValidation projectDir p) = extend p vev /\
    (In (ValidateLowLatency projectDir) vev -> In SpinnerStart vev) /\
    (In SpinnerStart vev ->
       (In SpinnerStop vev <->
        fst (validate_project w skipProjectValidation projectDir p) = Returned tt)) /\
    (In (ValidateLowLatency projectDir) vev ->
     validateLowLatencyAsync w projectDir = Resolve FATAL ->
       fst (validate_project w skipProjectValidation projectDir p) =
         Thrown (plain_error
           "There is an error with your project. See above logs for information.")).
Proof.
  destruct (validate_project_cases w skipProjectValidation projectDir p)
    as (vev & H1 & H2 & H3 & _ & _ & H6).
  exists vev. auto.
Qed.

(** X8.  Doctor is consulted if and only if validation is not skipped and
    the status query resolves to something other than ['running']; the
    status itself is queried if and only if validation is not skipped. *)
Theorem doctor_runs_only_when_not_running
    (w : World) (skipProjectValidation : bool) (projectDir : string) (p : Proc) :
  exists vev,
    snd (validate_project w skipProjectValidation projectDir p) = extend p vev /\
    (In (CurrentStatus projectDir) vev <-> skipProjectValidation = false) /\
    (In (ValidateLowLatency projectDir) vev <->
       skipProjectValidation = false /\
       exists st, currentStatus w projectDir = Resolve st /\ st <> "running").
Proof.
  destruct (validate_project_cases w skipProjectValidation projectDir p)
    as (vev & H1 & _ & _ & H4 & H5 & _).
  exists vev. auto.
Qed.

(** X9.  For a command that takes one more positional argument after the
    directory, the two wrappers read the flags from different arguments:
    [asyncAction] takes them from the last argument (the command object) and
    switches [Config.offline] on for [--offline], while the login gate of
    [asyncActionProjectDir] looks at the argument that follows the directory,
    finds no flag on the string, and runs the interactive login flow even
    though [--offline] or [--non-interactive] was given. *)
Theorem login_gate_reads_second_argument
    (w : World) (d : Value) (x : string) (o : Options) (p q : Proc) :
  let all := [d; VString x; VCommand o] in
  read_options all p =
    (Returned tt,
     {| trace := trace p;
        log_config_raw := log_config_raw p || is_raw (output o);
        Config_offline := Config_offline p || offline o |}) /\
  exists evs,
    snd (authenticate w false (hd VUndefined (tl all)) q) = extend q evs /\
    head evs = Some LoginOrRegisterIfLoggedOut.
Proof.
  cbn zeta. split.
  - unfold read_options, bind, get_prop, when, set_log_config_raw,
      set_Config_offline, ret. destruct p as [t r f]. cbn.
    destruct (is_raw (output o)), (offline o); cbn;
      now rewrite ?orb_true_r, ?orb_false_r.
  - unfold authenticate, wants_login, bind, get_prop, when, await, emit, ret. cbn.
    destruct (loginOrRegisterIfLoggedOut w) as [[]|e]; cbn.
    + destruct (ensureLoggedInAsync w) as [[]|e]; cbn; rewrite extend_extend;
        eexists; split; reflexivity.
    + eexists; split; reflexivity.
Qed.

(** ** The publish action off its success path *)

(** X10.  When the publish action fails for any reason other than the final
    stop call itself, [stopAsync] is never called: a dev server the action
    had started for the publish stays running. *)
Theorem failed_publish_does_not_stop_server
    (w : World) (projectDir : string) (options : Options) (p p' : Proc)
    (e : Error) :
  action w projectDir options p = (Thrown e, p') ->
  stopAsync w projectDir = Resolve tt ->
  exists evs, p' = extend p evs /\ List.filter is_stop evs = [].
Proof.
  intros Hact Hstop. revert Hact.
  unfold action, bind, await, emit, when, ret. rewrite ?Hstop.
  destruct (currentStatus w projectDir) as [status|e0]; cbn;
    [|intros H; injection H as _ <-; eexists; split; reflexivity].
  destruct (String.eqb status "running"); cbn;
    [|destruct (startAsync w projectDir) as [[]|e0]; cbn;
      [|intros H; injection H as _ <-; rewrite ?extend_extend;
        eexists; split; reflexivity]];
    (destruct (getRecipient w (sendTo options)) as [[r|]|e0]; cbn;
     [| |intros H; injection H as _ <-; rewrite ?extend_extend;
         eexists; split; reflexivity]);
    destruct (quiet options); cbn;
    (destruct (publishAsync w projectDir) as [url|e0]; cbn;
     [|intros H; injection H as _ <-; rewrite ?extend_extend;
       eexists; split; reflexivity]);
    try (destruct (String.eqb r ""); cbn;
         [|destruct (sendUrlAsync w url r) as [[]|e0]; cbn;
           [|intros H; injection H as _ <-; rewrite ?extend_extend;
             eexists; split; reflexivity]]);
    rewrite ?Hstop; cbn; discriminate.
Qed.

Lemma failed_publish_does_not_stop_server_witness :
  exists evs,
    snd (action (with_publish (fun _ => Reject (api_error "Not authorized"))
                   (with_status (fun _ => Resolve "exited") calm))
           "/home/u/app" no_options boot) = extend boot evs /\
    In (StartAsync "/home/u/app" true) evs /\
    List.filter is_stop evs = [].
Proof.
  destruct (failed_publish_does_not_stop_server
              (with_publish (fun _ => Reject (api_error "Not authorized"))
                 (with_status (fun _ => Resolve "exited") calm))
              "/home/u/app" no_options boot _ _ eq_refl eq_refl)
    as (evs & Hp & Hnone).
  exists evs. split; [exact Hp|]. split; [|exact Hnone].
  cbn in Hp. rewrite !extend_extend in Hp. apply extend_inj in Hp.
  subst evs. cbn. auto.
Defined.

(** X11.  What a successful publish hands on: the value returned is the
    result [publishAsync] resolved to; its url is given once to [log.raw],
    and it is sent, once and after that, exactly when [getRecipient]
    resolved to a non-empty recipient. *)
Theorem publish_returns_and_sends_url
    (w : World) (projectDir : string) (options : Options) (p p' : Proc)
    (result : Value) :
  action w projectDir options p = (Returned result, p') ->
  exists url recipient evs,
    publishAsync w projectDir = Resolve url /\
    getRecipient w (sendTo options) = Resolve recipient /\
    result = VPublished url /\
    p' = extend p evs /\
    List.filter is_raw_or_send evs =
      LogRaw url ::
      match recipient with
      | Some r => if String.eqb r "" then [] else [SendUrlAsync url r]
      | None => []
      end.
Proof.
  unfold action, bind, await, emit, when, ret.
  destruct (currentStatus w projectDir) as [status|e0]; cbn; [|discriminate].
  destruct (String.eqb status "running"); cbn;
    [|destruct (startAsync w projectDir) as [[]|e0]; cbn; [|discriminate]];
    (destruct (getRecipient w (sendTo options)) as [[r|]|e0] eqn:Hrec; cbn;
     [| |discriminate]);
    destruct (quiet options); cbn;
    (destruct (publishAsync w projectDir) as [url|e0]; cbn; [|discriminate]);
    try (destruct (String.eqb r "") eqn:Hr; cbn;
         [|destruct (sendUrlAsync w url r) as [[]|e0]; cbn; [|discriminate]]);
    try (destruct (stopAsync w projectDir) as [[]|e0]; cbn; [|discriminate]);
    intros H; injection H as <- <-; rewrite ?extend_extend;
    eexists url, _, _; (split; [reflexivity|]); (split; [reflexivity|]);
    (split; [reflexivity|]); (split; [reflexivity|]); cbn; rewrite ?Hr;
    reflexivity.
Qed.

Lemma publish_returns_and_sends_url_witness :
  fst (action calm "/home/u/app" no_options boot)
  = Returned (VPublished "https://exp.host/@u/app").
Proof.
  destruct (publish_returns_and_sends_url calm "/home/u/app" no_options boot
              _ _ eq_refl)
    as (url & recipient & evs & Hurl & _ & Hres & _).
  cbn in Hurl. injection Hurl as <-. reflexivity.
Defined.

(** X12.  The spinner of a quiet publish: without [--quiet] the action
    never touches the spinner; with it, a successful run starts the spinner,
    publishes, and stops the spinner, in this order and once each; and when
    [publishAsync] rejects, the spinner is never stopped. *)
Theorem quiet_publish_spinner
    (w : World) (projectDir : string) (options : Options) (p : Proc) :
  exists evs,
    snd (action w projectDir options p) = extend p evs /\
    (quiet options = false ->
       ~ In SpinnerStart evs /\ ~ In SpinnerStop evs) /\
    (forall result, fst (action w projectDir options p) = Returned result ->
       List.filter is_spinner_or_publish evs =
         if quiet options
         then [SpinnerStart; PublishAsync projectDir; SpinnerStop]
         else [PublishAsync projectDir]) /\
    (forall e, publishAsync w projectDir = Reject e -> ~ In SpinnerStop evs).
Proof.
  unfold action, bind, await, emit, when, ret.
  destruct (currentStatus w projectDir) as [status|e0]; cbn;
    [destruct (String.eqb status "running"); cbn;
     [|destruct (startAsync w projectDir) as [[]|e0]; cbn];
     try (destruct (getRecipient w (sendTo options)) as [[r|]|e0]; cbn;
          try (destruct (quiet options); cbn;
               destruct (publishAsync w projectDir) as [url|e0]; cbn;
               try (destruct (String.eqb r ""); cbn;
                    [|destruct (sendUrlAsync w url r) as [[]|e0]; cbn]);
               try (destruct (stopAsync w projectDir) as [[]|e0]; cbn)))|];
    rewrite ?extend_extend; (eexists; split; [reflexivity|]); cbn;
    (split; [intros Hq; try discriminate Hq; split; intuition discriminate|]);
    (split; [intros result Hres; try discriminate Hres; reflexivity|]);
    intros e He; try discriminate He; intuition discriminate.
Qed.

(** ** The entry point: known commands, registration, debug commands *)

Lemma program_parse_quiet program argv p :
  exists evs,
    program_parse program argv p = (Returned tt, extend p evs) /\
    List.filter is_console_log evs = [] /\
    (forall sub, argv !! 2%nat = Some sub ->
       (evs = [] /\ (find (listens sub) (commands program) = None \/
                     exists c, find (listens sub) (commands program) = Some c /\
                               _action c = None)) \/
       exists c, find (listens sub) (commands program) = Some c /\
                 evs = [Dispatch (_name c) (drop 3 argv)]).
Proof.
  unfold program_parse.
  destruct (argv !! 2%nat) as [sub|].
  - destruct (find (listens sub) (commands program)) as [c|] eqn:Hf.
    + destruct (_action c) eqn:Ha.
      * exists [Dispatch (_name c) (drop 3 argv)]. repeat split.
        intros s [= <-]. right. eauto.
      * exists []. unfold ret. rewrite extend_nil. repeat split.
        intros s [= <-]. left. split; [reflexivity|]. right. eauto.
    + exists []. unfold ret. rewrite extend_nil. repeat split.
      intros s [= <-]. left. auto.
  - exists []. unfold ret. rewrite extend_nil. repeat split.
    intros s Hs; discriminate.
Qed.

(** X13.  A sub-command that is the name or the alias of a registered
    command never gets the "is not an exp command" message: after parsing,
    the entry point prints nothing on [console.log], shows no help and
    returns. *)
Theorem known_subcommand_no_message
    (program : Program) (argv : list string) (sub : string) (p : Proc) :
  argv !! 2%nat = Some sub ->
  sub <> "" ->
  In sub (names_and_aliases program) ->
  exists evs,
    dispatch program argv p = (Returned tt, extend p evs) /\
    List.filter is_console_log evs = [] /\
    ~ In ProgramHelp evs.
Proof.
  intros Harg Hne Hin.
  destruct (program_parse_quiet program argv p) as (evs & Hparse & Hquiet & Hev).
  unfold dispatch, bind. rewrite Hparse, Harg. cbn.
  destruct (String.eqb_spec sub ""); [contradiction|]. cbn.
  assert (Hex : existsb (String.eqb sub) (names_and_aliases program) = true).
  { apply existsb_exists. exists sub. split; [exact Hin|apply String.eqb_refl]. }
  rewrite Hex. cbn. unfold ret.
  exists evs. split; [reflexivity|]. split; [exact Hquiet|].
  destruct (Hev sub Harg) as [[-> _]|(c & _ & ->)]; cbn; intuition discriminate.
Qed.

Lemma known_subcommand_no_message_witness :
  exists evs,
    dispatch (add_command (publish_command calm)
                (add_command (login_command calm succeeding) program0))
      ["node"; "exp"; "p"; "app"] boot = (Returned tt, extend boot evs) /\
    List.filter is_console_log evs = [] /\
    ~ In ProgramHelp evs.
Proof.
  apply (known_subcommand_no_message _ ["node"; "exp"; "p"; "app"] "p" boot);
    [reflexivity|discriminate|].
  cbn. auto.
Defined.

(** X14.  Registration over a directory without a [null] or [undefined]
    module always completes: the registration functions (plain or under
    [default]) are applied in the order of the files, and exactly one error
    line is logged for every other module, naming its file. *)
Theorem registration_logs_each_malformed
    (files : list (string * Exports)) (program : Program) (p : Proc) :
  Forall (fun fm => nullish (snd fm) = false) files ->
  exists errs,
    register_commands files program p =
      (Returned (fold_left (fun pr fm => registered_by (snd fm) pr) files program),
       extend p errs) /\
    errs =
      map (fun fm => LogError (Plain ("'" +:+ fst fm +:+
                                      ".js' is not a properly formatted command.")))
          (List.filter (fun fm => malformed (snd fm)) files) /\
    length errs = length (List.filter (fun fm => malformed (snd fm)) files).
Proof.
  revert program p.
  induction files as [|[file m] files IH]; intros program p Hall.
  - exists []. cbn. now rewrite extend_nil.
  - inversion Hall as [|? ? Hm Hrest]; subst. cbn in Hm.
    cbn [register_commands]. unfold bind.
    destruct m as [f|[f|]|]; try discriminate; cbn.
    + destruct (IH (f program) p Hrest) as (errs & -> & -> & Hlen).
      eexists. split; [reflexivity|]. split; [reflexivity|].
      now rewrite length_map.
    + destruct (IH (f program) p Hrest) as (errs & -> & -> & Hlen).
      eexists. split; [reflexivity|]. split; [reflexivity|].
      now rewrite length_map.
    + destruct (IH program
                  (extend p [LogError (Plain ("'" +:+ file +:+
                     ".js' is not a properly formatted command."))]) Hrest)
        as (errs & -> & -> & Hlen).
      rewrite extend_extend.
      eexists. split; [reflexivity|]. split; [reflexivity|].
      cbn. now rewrite !length_map.
Qed.

Lemma registration_logs_each_malformed_witness :
  exists errs,
    register_commands
      (("commands/notes.js", ExpObject None) :: command_files calm succeeding)
      program0 boot
    = (Returned (publish_default calm (login_default calm succeeding program0)),
       extend boot errs) /\
    length errs = 1%nat.
Proof.
  destruct (registration_logs_each_malformed
              (("commands/notes.js", ExpObject None) :: command_files calm succeeding)
              program0 boot)
    as (errs & Hrun & _ & Hlen).
  - repeat constructor.
  - exists errs. split; [exact Hrun|exact Hlen].
Defined.

(** X15.  In debug mode the debug commands are called without the test the
    regular commands get: the first debug module that is not a plain
    function (an ES module with a [default] export included) makes
    [runAsync] throw a [TypeError] after [console.error] has shown it; no
    "not a properly formatted command" line is logged for it and no command
    is dispatched. *)
Theorem debug_module_must_be_function
    (w : World) (commandFiles rest : list (string * Exports))
    (file : string) (m : Exports) (argv : list string)
    (program : Program) (p q : Proc) :
  EXPO_DEBUG w = true ->
  register_commands commandFiles program0 p = (Returned program, q) ->
  is_function m = false ->
  let te := type_error "require(...) is not a function" in
  runAsync w commandFiles ((file, m) :: rest) argv p =
    (Thrown te, extend q [ConsoleError te]).
Proof.
  intros Hd Hreg Hm te. unfold runAsync, try_catch, bind.
  rewrite Hreg, Hd. cbn [register_debug_commands]. unfold bind.
  destruct m as [f|o|]; [discriminate| |]; reflexivity.
Qed.

Lemma debug_module_must_be_function_witness :
  runAsync (with_debug true calm) (command_files calm succeeding)
    [("debug_commands/dev.js", ExpObject (Some (publish_default calm)))]
    ["node"; "exp"; "login"] boot
  = (Thrown (type_error "require(...) is not a function"),
     extend boot [ConsoleError (type_error "require(...) is not a function")]).
Proof.
  exact (debug_module_must_be_function (with_debug true calm)
           (command_files calm succeeding) [] "debug_commands/dev.js"
           (ExpObject (Some (publish_default calm))) ["node"; "exp"; "login"]
           _ boot boot eq_refl eq_refl eq_refl).
Defined.

(** X16.  A failure of [runAsync] is shown twice and ends the process: once
    by the [console.error] of its own [catch] before it rethrows, once by
    the [catch] of [run], which then exits with code 1. *)
Theorem run_reports_failure_twice
    (w : World) (commandFiles debugFiles : list (string * Exports))
    (argv : list string) (p q : Proc) (e : Error) :
  runAsync w commandFiles debugFiles argv p = (Thrown e, q) ->
  run w commandFiles debugFiles argv p =
    (Exited 1, extend q [ConsoleError e; ProcessExit 1]) /\
  exists q0, q = extend q0 [ConsoleError e].
Proof.
  intros Hrun. split.
  - unfold run, try_catch, bind, emit, process_exit. rewrite Hrun. cbn.
    now rewrite extend_extend.
  - revert Hrun. unfold runAsync, try_catch.
    destruct (bind (register_commands commandFiles program0) _ p)
      as [[[]|e0|c] q1]; try discriminate.
    unfold bind, emit, throw. cbn. intros [= <- <-]. eauto.
Qed.

Lemma run_reports_failure_twice_witness :
  run calm [("commands/broken.js", ExpNullish)] [] ["node"; "exp"] boot
  = (Exited 1,
     extend boot
       [ConsoleError (type_error "Cannot read property 'default' of null");
        ConsoleError (type_error "Cannot read property 'default' of null");
        ProcessExit 1]).
Proof.
  exact (proj1 (run_reports_failure_twice calm
                  [("commands/broken.js", ExpNullish)] [] ["node"; "exp"] boot
                  _ _ eq_refl)).
Defined.

(** ** The progress indicator outside a well-formed session *)

Section ProgressMore.

Import LogSink.

Lemma onProgress_cases p s :
  onProgressBuildBundle p s = s \/
  exists n b,
    bar s = Some n /\ bars s !! n = Some b /\ 0 < p - ProgressBar.curr b /\
    onProgressBuildBundle p s =
      {| bars := <[n := ProgressBar.tick (p - ProgressBar.curr b) b]> (bars s);
         bar := bar s;
         bundleProgressBar := bundleProgressBar s;
         printed := printed s |}.
Proof.
  unfold onProgressBuildBundle, tick_at.
  destruct (bar s) as [n|] eqn:Hbar; [|now left].
  destruct (bars s !! n) as [b|] eqn:Hb; [|now left].
  destruct (ProgressBar.complete b); [now left|].
  destruct (Z.ltb_spec 0 (p - ProgressBar.curr b)); [|now left].
  right. exists n, b. repeat split; trivial; lia.
Qed.

Lemma onProgress_frame p s :
  bar (onProgressBuildBundle p s) = bar s /\
  bundleProgressBar (onProgressBuildBundle p s) = bundleProgressBar s /\
  printed (onProgressBuildBundle p s) = printed s /\
  length (bars (onProgressBuildBundle p s)) = length (bars s) /\
  (forall r, bar s <> Some r ->
     bars (onProgressBuildBundle p s) !! r = bars s !! r).
Proof.
  destruct (onProgress_cases p s) as [->|(n & b & Hbar & Hb & _ & ->)];
    [repeat split|].
  cbn. repeat split; trivial.
  - apply length_insert.
  - intros r Hr. apply list_lookup_insert_ne. congruence.
Qed.

Lemma onProgress_position p s : position s <= position (onProgressBuildBundle p s).
Proof.
  destruct (onProgress_cases p s) as [->|(n & b & Hbar & Hb & Hpos & ->)]; [lia|].
  unfold position. cbn. rewrite Hbar, Hb.
  rewrite list_lookup_insert_eq by (eapply lookup_lt_Some; eauto).
  cbn. lia.
Qed.

Lemma onFinish_cases err t0 t1 s :
  (bar s = None /\ onFinishBuildBundle err t0 t1 s = s) \/
  exists n bs,
    bar s = Some n /\
    (forall r, r <> n -> bs !! r = bars s !! r) /\
    onFinishBuildBundle err t0 t1 s =
      {| bars := bs;
         bar := None;
         bundleProgressBar := None;
         printed :=
           printed s ++
           [if err then Paint red (Plain "Failed building JavaScript bundle.")
            else Paint green
                   (Plain ("Finished building JavaScript bundle in "
                           +:+ pretty (t1 - t0) +:+ "ms."))] |}.
Proof.
  unfold onFinishBuildBundle, tick_at.
  destruct (bar s) as [n|] eqn:Hbar; [|left; now rewrite Hbar].
  right. exists n.
  destruct (bars s !! n) as [b|] eqn:Hb;
    [destruct (ProgressBar.complete b)|]; cbn; rewrite ?Hbar.
  - exists (bars s). auto.
  - eexists. split; [reflexivity|]. split; [|reflexivity].
    intros r Hr. apply list_lookup_insert_ne. congruence.
  - exists (bars s). auto.
Qed.

(** X17.  Progress notifications never move the indicator back, whatever
    percentages arrive (out of order, negative, above 100) and whatever the
    state (no bar, a complete bar): every notification adds a non-negative
    amount to the position, and a run of them changes neither the references
    to the bar, nor the number of bars, nor what was printed. *)
Theorem progress_never_moves_back (ps : list Z) (s : state) :
  Forall (fun d => 0 <= d) (advances ps s) /\
  position s <= position (progress ps s) /\
  bar (progress ps s) = bar s /\
  bundleProgressBar (progress ps s) = bundleProgressBar s /\
  printed (progress ps s) = printed s /\
  length (bars (progress ps s)) = length (bars s).
Proof.
  revert s. induction ps as [|p ps IH]; intros s; cbn [advances progress].
  - repeat split; [constructor|lia].
  - destruct (IH (onProgressBuildBundle p s)) as (H1 & H2 & H3 & H4 & H5 & H6).
    destruct (onProgress_frame p s) as (F1 & F2 & F3 & F4 & _).
    pose proof (onProgress_position p s) as Hpos.
    repeat split; try congruence; [|lia].
    constructor; [lia|exact H1].
Qed.

Lemma progress_bar_ref ps : forall s, bar (progress ps s) = bar s.
Proof.
  induction ps as [|p ps IH]; intros s; [reflexivity|].
  cbn [progress]. rewrite IH. apply onProgress_frame.
Qed.

Lemma progress_other_bars ps : forall s r,
  bar s <> Some r -> bars (progress ps s) !! r = bars s !! r.
Proof.
  induction ps as [|p ps IH]; intros s r Hr; [reflexivity|].
  cbn [progress].
  destruct (onProgress_frame p s) as (F1 & _ & _ & _ & F5).
  rewrite IH by (rewrite F1; exact Hr). now apply F5.
Qed.

Lemma onFinish_other_bars err t0 t1 s r :
  bar s <> Some r -> bars (onFinishBuildBundle err t0 t1 s) !! r = bars s !! r.
Proof.
  intros Hr.
  destruct (onFinish_cases err t0 t1 s) as [[_ ->]|(n & bs & Hbar & Hbs & ->)];
    [reflexivity|].
  cbn. apply Hbs. congruence.
Qed.

(** X18.  A "build started" notification always creates a new bar, also
    while another one is active: the position is back at 0, and the bars of
    earlier builds are never touched again by the progress and finish
    notifications that follow (a bar left incomplete stays incomplete). *)
Theorem new_build_leaves_earlier_bars
    (s : state) (ps : list Z) (err : bool) (startTime endTime : Z)
    (r : nat) (b : ProgressBar.t) :
  bars s !! r = Some b ->
  let s1 := onStartBuildBundle s in
  length (bars s1) = S (length (bars s)) /\
  bar s1 = Some (length (bars s)) /\
  position s1 = 0 /\
  bars (onFinishBuildBundle err startTime endTime (progress ps s1)) !! r = Some b.
Proof.
  intros Hb s1.
  assert (Hlt : (r < length (bars s))%nat) by (eapply lookup_lt_Some; eauto).
  assert (Hbar1 : bar s1 = Some (length (bars s))) by reflexivity.
  split; [subst s1; cbn; rewrite length_app; cbn; lia|].
  split; [exact Hbar1|].
  split; [apply (tracks_position (length (bars s))), tracks_start|].
  assert (Hne : bar s1 <> Some r) by (rewrite Hbar1; intros [= ?]; lia).
  rewrite onFinish_other_bars.
  - rewrite progress_other_bars by exact Hne.
    subst s1. cbn. now rewrite lookup_app_l.
  - rewrite progress_bar_ref. exact Hne.
Qed.

Lemma new_build_leaves_earlier_bars_witness :
  let s := progress [40] (onStartBuildBundle init) in
  bars (onFinishBuildBundle false 0 900
          (progress [20; 100] (onStartBuildBundle s))) !! 0%nat
  = Some (ProgressBar.mk 40 100 false).
Proof.
  cbn zeta.
  exact (proj2 (proj2 (proj2
    (new_build_leaves_earlier_bars
       (progress [40] (onStartBuildBundle init)) [20; 100] false 0 900
       0%nat (ProgressBar.mk 40 100 false) eq_refl)))).
Defined.

(** X19.  A "build finished" notification prints its summary exactly when a
    bar is active: then it adds one line (red for a failure, green with the
    elapsed milliseconds otherwise) and drops both references; without an
    active bar it changes nothing.  After it, nothing is active: further
    progress and finish notifications change nothing. *)
Theorem finish_prints_once
    (s : state) (err : bool) (startTime endTime : Z) :
  let s' := onFinishBuildBundle err startTime endTime s in
  bar s' = None /\
  (bar s = None -> s' = s) /\
  (forall r, bar s = Some r ->
     bundleProgressBar s' = None /\
     printed s' =
       printed s ++
       [if err then Paint red (Plain "Failed building JavaScript bundle.")
        else Paint green
               (Plain ("Finished building JavaScript bundle in "
                       +:+ pretty (endTime - startTime) +:+ "ms."))]) /\
  (forall err' a b, onFinishBuildBundle err' a b s' = s') /\
  (forall p, onProgressBuildBundle p s' = s').
Proof.
  cbn zeta.
  destruct (onFinish_cases err startTime endTime s)
    as [[Hbar ->]|(n & bs & Hbar & _ & ->)].
  - split; [exact Hbar|]. split; [reflexivity|].
    split; [intros r Hr; congruence|]. split.
    + intros err' a b.
      destruct (onFinish_cases err' a b s) as [[_ H]|(n & bs & Hn & _)];
        [exact H|congruence].
    + intros p.
      destruct (onProgress_cases p s) as [H|(n & b & Hn & _)];
        [exact H|congruence].
  - cbn. split; [reflexivity|]. split; [intros Hn; congruence|].
    split; [intros r _; split; reflexivity|]. split; reflexivity.
Qed.

End ProgressMore.

(** ** Log routing *)

Section LogRoutingFacts.

Import LogRouting.

Lemma append_nil_r (s : string) : s +:+ "" = s.
Proof.
  induction s as [|c s IH]; [reflexivity|].
  change (String c (s +:+ "") = String c s). now rewrite IH.
Qed.

Lemma newlines_app (a b : string) : newlines (a +:+ b) = (newlines a + newlines b)%nat.
Proof.
  induction a as [|c a IH]; [reflexivity|].
  change (newlines (String c (a +:+ b)) = (newlines (String c a) + newlines b)%nat).
  cbn. rewrite IH. lia.
Qed.

Lemma split_at_cons (s cur : string) :
  exists line rest, split_at newline s cur = line :: rest.
Proof.
  revert cur. induction s as [|c s IH]; intros cur; cbn; [eauto|].
  destruct (Ascii.eqb c newline); eauto.
Qed.

Lemma join_split_at (s : string) : forall cur,
  join_lines (split_at newline s cur) = cur +:+ s.
Proof.
  induction s as [|c s IH]; intros cur.
  - cbn. now rewrite append_nil_r.
  - cbn [split_at]. destruct (Ascii.eqb_spec c newline) as [->|Hc].
    + destruct (split_at_cons s "") as (line & rest & Hsp).
      pose proof (IH "") as Hj. rewrite Hsp in *.
      change (cur +:+ String newline (join_lines (line :: rest))
              = cur +:+ String newline s).
      now rewrite Hj.
    + rewrite IH, append_assoc. reflexivity.
Qed.

Lemma length_split_at (s : string) : forall cur,
  length (split_at newline s cur) = S (newlines s).
Proof.
  induction s as [|c s IH]; intros cur; [reflexivity|].
  cbn [split_at newlines]. destruct (Ascii.eqb c newline); cbn; now rewrite IH.
Qed.

Lemma split_at_no_newline (s : string) : forall cur,
  newlines cur = 0%nat ->
  Forall (fun line => newlines line = 0%nat) (split_at newline s cur).
Proof.
  induction s as [|c s IH]; intros cur Hcur; [repeat constructor; exact Hcur|].
  cbn [split_at]. destruct (Ascii.eqb c newline) eqn:Hc.
  - constructor; [exact Hcur|]. now apply IH.
  - apply IH. rewrite newlines_app, Hcur. cbn. now rewrite Hc.
Qed.

(** X20.  Splitting a message into lines loses nothing: the lines, put one
    after the other, give the message back; there is one line more than
    there are newline characters (so an empty piece before, between or after
    newlines is a line of its own), and no line contains a newline. *)
Theorem split_lines_round_trip (m : string) :
  join_lines (split_lines m) = m /\
  length (split_lines m) = S (newlines m) /\
  Forall (fun line => newlines line = 0%nat) (split_lines m).
Proof.
  unfold split_lines. split; [|split].
  - now rewrite join_split_at.
  - apply length_split_at.
  - now apply split_at_no_newline.
Qed.

Lemma for_each_emit (f : Text -> Event) (ls : list string) : forall p,
  for_each (fun line => emit (f (Plain line))) ls p =
    (Returned tt, extend p (map (fun line => f (Plain line)) ls)).
Proof.
  induction ls as [|l ls IH]; intros p; cbn [for_each map].
  - unfold ret. now rewrite extend_nil.
  - unfold bind, emit. rewrite IH. now rewrite extend_extend.
Qed.

(** X21.  [logWithLevel] shows a record with a non-empty message line by
    line, every line once, in order, all on one sink: the info sink for
    levels up to INFO (debug and trace included), the warning sink for
    exactly WARN, the error sink for every other level (those between INFO
    and WARN included). *)
Theorem logWithLevel_lines (chunk : Chunk) (m : string) (p : Proc) :
  msg chunk = Some m ->
  m <> "" ->
  exists sink evs,
    logWithLevel chunk p = (Returned tt, extend p evs) /\
    map line_of evs = map (fun line => Some (sink, line)) (split_lines m) /\
    length evs = S (newlines m) /\
    (level chunk <= INFO -> sink = SinkLog) /\
    (level chunk = WARN -> sink = SinkWarn) /\
    (INFO < level chunk -> level chunk <> WARN -> sink = SinkError).
Proof.
  intros Hm Hne. unfold logWithLevel, logLines. rewrite Hm.
  destruct (String.eqb_spec m ""); [contradiction|].
  unfold INFO, WARN.
  destruct (Z.leb_spec (level chunk) 30);
    [|destruct (Z.eqb_spec (level chunk) 40)];
    rewrite for_each_emit;
    [exists SinkLog|exists SinkWarn|exists SinkError];
    (eexists; split; [reflexivity|]);
    unfold split_lines;
    rewrite map_map, length_map, length_split_at; cbn;
    repeat split; trivial; intros; lia.
Qed.

Lemma logWithLevel_lines_witness :
  logWithLevel {| msg := Some ("Bundling" +:+ String newline "done");
                  level := 35; tag := Some "device"; code := None |} boot
  = (Returned tt, extend boot [LogError (Plain "Bundling"); LogError (Plain "done")]).
Proof.
  destruct (logWithLevel_lines
              {| msg := Some ("Bundling" +:+ String newline "done");
                 level := 35; tag := Some "device"; code := None |}
              ("Bundling" +:+ String newline "done") boot eq_refl)
    as (sink & evs & Hrun & _).
  - discriminate.
  - reflexivity.
Defined.

(** X22.  The stream [_registerLogs] attaches answers a record with at most
    one action.  A record with one of the three loading codes never shows
    text.  Text goes to the info sink only at exactly INFO, to the warning
    sink only at exactly WARN and to the error sink only from ERROR up:
    records below INFO and records strictly between the named levels are
    dropped, where [logWithLevel] would show them. *)
Theorem registerLogs_write_routes
    (nc : NotificationCode) (chunk : Chunk) (p : Proc) :
  exists evs,
    registerLogs_write nc chunk p = (Returned tt, extend p evs) /\
    (length evs <= 1)%nat /\
    (forall e sink text, In e evs -> line_of e = Some (sink, text) ->
       (level chunk = INFO /\ sink = SinkLog) \/
       (level chunk = WARN /\ sink = SinkWarn) \/
       (ERROR <= level chunk /\ sink = SinkError)) /\
    (forall c, code chunk = Some c -> c <> 0 ->
       c = START_LOADING nc \/ c = STOP_LOADING nc \/ c = DOWNLOAD_CLI_PROGRESS nc ->
       forall e, In e evs -> line_of e = None) /\
    (level chunk < INFO -> forall e, In e evs -> line_of e = None).
Proof.
  assert (Hlevel : exists evs,
    by_level chunk p = (Returned tt, extend p evs) /\
    (length evs <= 1)%nat /\
    (forall e sink text, In e evs -> line_of e = Some (sink, text) ->
       (level chunk = INFO /\ sink = SinkLog) \/
       (level chunk = WARN /\ sink = SinkWarn) \/
       (ERROR <= level chunk /\ sink = SinkError)) /\
    (level chunk < INFO -> forall e, In e evs -> line_of e = None)).
  { unfold by_level, INFO, WARN, ERROR, emit, ret.
    destruct (Z.eqb_spec (level chunk) 30) as [E1|N1].
    { eexists; split; [reflexivity|]. cbn. split; [lia|]. split.
      - intros e0 sink text [<-|[]] Hline. injection Hline as <- _. auto.
      - intros Hlt e0 _. lia. }
    destruct (Z.eqb_spec (level chunk) 40) as [E2|N2].
    { eexists; split; [reflexivity|]. cbn. split; [lia|]. split.
      - intros e0 sink text [<-|[]] Hline. injection Hline as <- _. auto.
      - intros Hlt e0 _. lia. }
    destruct (Z.leb_spec 50 (level chunk)) as [E3|N3].
    { eexists; split; [reflexivity|]. cbn. split; [lia|]. split.
      - intros e0 sink text [<-|[]] Hline. injection Hline as <- _. auto.
      - intros Hlt e0 _. lia. }
    exists []. rewrite extend_nil. split; [reflexivity|]. cbn.
    split; [lia|]. split; [intros e0 sink text []|intros _ e0 []]. }
  destruct Hlevel as (lev & Hl1 & Hl2 & Hl3 & Hl4).
  unfold registerLogs_write, emit, ret.
  destruct (code chunk) as [c|];
    [destruct (Z.eqb_spec c 0);
     [|destruct (Z.eqb_spec c (START_LOADING nc));
       [|destruct (Z.eqb_spec c (STOP_LOADING nc));
         [|destruct (Z.eqb_spec c (DOWNLOAD_CLI_PROGRESS nc))]]]|].
  all: try (exists lev; split; [exact Hl1|]; split; [exact Hl2|];
            split; [exact Hl3|]; split; [|exact Hl4];
            intros c' Hc' Hz Hcodes e0 Hin;
            first [discriminate Hc' | injection Hc' as <-; intuition congruence]).
  all: try (eexists; split; [reflexivity|]; cbn; split; [lia|];
            split; [intros e0 sink text [<-|[]]; discriminate|];
            split; [intros c' _ _ _ e0 [<-|[]]; reflexivity|];
            intros _ e0 [<-|[]]; reflexivity).
  exists []. rewrite extend_nil. split; [reflexivity|]. cbn.
  split; [lia|]. split; [intros e0 sink text []|].
  split; [intros c' _ _ _ e0 []|intros _ e0 []].
Qed.

End LogRoutingFacts.

(** ** The server url *)

(** X23.  The backend url taken from [SERVER_URL]: an unset or empty
    variable leaves the configuration alone; otherwise the url handed to the
    parser always starts with [http], the prefix [http://] being added only
    when it did not, so that normalising twice changes nothing. *)
Theorem server_url_has_scheme (SERVER_URL : option string) :
  (given SERVER_URL = false -> server_url SERVER_URL = None) /\
  (forall s, SERVER_URL = Some s -> s <> "" ->
     exists u, server_url SERVER_URL = Some u /\
               String.prefix "http" u = true /\
               (String.prefix "http" s = true -> u = s) /\
               (String.prefix "http" s = false -> u = "http://" +:+ s) /\
               with_scheme u = u).
Proof.
  split.
  - destruct SERVER_URL as [s|]; cbn; [|reflexivity].
    destruct (String.eqb s ""); [reflexivity|discriminate].
  - intros s -> Hne. unfold server_url.
    destruct (String.eqb_spec s ""); [contradiction|].
    exists (with_scheme s). split; [reflexivity|].
    assert (Hpre : String.prefix "http" (with_scheme s) = true).
    { unfold with_scheme. destruct (String.prefix "http" s) eqn:Hp;
        [exact Hp|reflexivity]. }
    split; [exact Hpre|]. split; [|split].
    + intros Hp. unfold with_scheme. now rewrite Hp.
    + intros Hp. unfold with_scheme. now rewrite Hp.
    + unfold with_scheme at 1. now rewrite Hpre.
Qed.
